(** * FileScannerTool: a shallow embedding of [demos/FileScannerTool.py]

    The development follows the Python module top-down:

    - [PyStr]   the [str] methods the tool calls ([strip], [lower], [split],
                [in], [startswith]) and [pathlib]'s [suffix];
    - [PyNum]   the numbers of the tool: byte counts are Python [int]s,
                thresholds and timestamps are [float]s;
    - the walk ([Entry]), the four classifiers [_scan_large_files],
      [_scan_temp_files], [_scan_old_files], [_scan_duplicates];
    - [_resolve_scan_path] and the public operation [use];
    - the same loops and the same input parsing where a library call
      raises instead of returning: [Probe] for [is_file()], [use_exc] for
      [json.loads];
    - the properties of the scanning engine.

    Conventions.  A [str] is a Rocq [string] whose characters are the code
    points 0..255.  A [float] is the exact rational it denotes, with the
    two infinities and NaN where a caller can supply them: the tool only
    scales a threshold by 2^20, subtracts timestamps and an integer number
    of seconds, divides an age by 86400 and compares, which binary
    floating point does exactly, or with an error far below the distance
    to the next integer, for byte counts below 2^53 and timestamps of the
    present epoch.  The file system does not change during a scan: the
    walk is the list of paths [rglob] yields, each with the outcome of
    [is_file()] and of [stat()].  The fields of [World], [is_file] of an
    [Entry] and the parameter [json_loads] of [use] are what these calls
    return when they return; a property stated over them speaks of the
    runs in which they do.  [json.dumps] is the identity on the
    structured value it is given: [use] returns that value. *)

From Stdlib Require Import QArith Qround Lqa Ascii String.
From stdpp Require Import base list strings pretty.
From Stdlib Require Import Sorting.Sorted Sorting.Permutation.

Set Warnings "-register-all,-clear-no-such-hyp".

Local Open Scope string_scope.
Local Open Scope list_scope.

(* ================================================================== *)
(** ** Python [str] methods *)
(* ================================================================== *)

Module PyStr.

(** [c.isspace()] for the code points below 256. *)
Definition isspace (c : ascii) : bool :=
  let n := nat_of_ascii c in
  (((9 <=? n) && (n <=? 13)) || ((28 <=? n) && (n <=? 32))
   || (n =? 133) || (n =? 160))%nat.

(** [c.lower()] for the code points below 256: A-Z and the Latin-1
    capitals (192..222 except the multiplication sign 215). *)
Definition lower_char (c : ascii) : ascii :=
  let n := nat_of_ascii c in
  if (((65 <=? n) && (n <=? 90))
      || ((192 <=? n) && (n <=? 222) && negb (n =? 215)))%nat
  then ascii_of_nat (n + 32) else c.

Fixpoint lower (s : string) : string :=
  match s with
  | EmptyString => EmptyString
  | String c r => String (lower_char c) (lower r)
  end.

(** [s.lstrip(chars)], the set of characters given as a predicate. *)
Fixpoint lstrip_by (p : ascii -> bool) (s : string) : string :=
  match s with
  | EmptyString => EmptyString
  | String c r => if p c then lstrip_by p r else s
  end.

Definition rstrip_by (p : ascii -> bool) (s : string) : string :=
  String.rev (lstrip_by p (String.rev s)).

Definition strip_by (p : ascii -> bool) (s : string) : string :=
  rstrip_by p (lstrip_by p s).

(** [s.strip()] *)
Definition strip (s : string) : string := strip_by isspace s.

(** [s.strip(c)] for a one-character argument (the tool strips quote
    characters this way). *)
Definition strip_char (c : ascii) (s : string) : string :=
  strip_by (Ascii.eqb c) s.

(** [s.split(sep)] for a one-character separator: never empty. *)
Fixpoint split (sep : ascii) (s : string) : list string :=
  match s with
  | EmptyString => [EmptyString]
  | String c r =>
      if Ascii.eqb c sep then EmptyString :: split sep r
      else match split sep r with
           | [] => [String c EmptyString]
           | t :: ts => String c t :: ts
           end
  end.

(** [s.startswith(p)] *)
Definition startswith (p s : string) : bool := String.prefix p s.

(** [sub in s] *)
Fixpoint contains (sub s : string) : bool :=
  String.prefix sub s ||
  match s with
  | EmptyString => false
  | String _ r => contains sub r
  end.

(** [s.rfind(c)] for a one-character argument, scanning from index [i];
    [None] stands for -1. *)
Fixpoint rfind_from (c : ascii) (s : string) (i : nat) : option nat :=
  match s with
  | EmptyString => None
  | String a r =>
      match rfind_from c r (S i) with
      | Some j => Some j
      | None => if Ascii.eqb a c then Some i else None
      end
  end.

Definition rfind (c : ascii) (s : string) : option nat := rfind_from c s 0.

(** [s[i:]] *)
Fixpoint drop (i : nat) (s : string) : string :=
  match i, s with
  | O, _ => s
  | S i', EmptyString => EmptyString
  | S i', String _ r => drop i' r
  end.

(** [pathlib.PurePath.suffix] computed from [name]:
    [i = name.rfind('.')]; [name[i:]] when [0 < i < len(name) - 1],
    otherwise the empty string. *)
Definition suffix (name : string) : string :=
  match rfind "." name with
  | Some i =>
      if ((0 <? i) && (i <? String.length name - 1))%nat then drop i name
      else EmptyString
  | None => EmptyString
  end.

(** [x in l] for a list of strings. *)
Definition mem (x : string) (l : list string) : bool :=
  existsb (String.eqb x) l.

End PyStr.

(* ================================================================== *)
(** ** Numbers *)
(* ================================================================== *)

Module PyNum.

(** A Python [float].  A finite float is the rational it denotes. *)
Inductive pyfloat : Type :=
| Finite (q : Q)
| PosInf
| NegInf
| NaN.

(** [f * 1024 * 1024]: scaling by a power of two is exact. *)
Definition mul_mib (f : pyfloat) : pyfloat :=
  match f with
  | Finite q => Finite (q * 1024 * 1024)
  | other => other
  end.

(** [size >= f] for an [int] [size] and a [float] [f]; every comparison
    with NaN is false. *)
Definition int_ge_float (size : N) (f : pyfloat) : bool :=
  match f with
  | Finite q => Qle_bool q (inject_Z (Z.of_N size))
  | PosInf => false
  | NegInf => true
  | NaN => false
  end.

(** [a < b] on timestamps. *)
Definition Qlt_bool (a b : Q) : bool := negb (Qle_bool b a).

(** [int(q)]: truncation toward zero. *)
Definition int_of_float (q : Q) : Z := Z.quot (Qnum q) (Zpos (Qden q)).

(** A float with two decimals, held as its number of hundredths: the
    value [round(x, 2)] returns is the double nearest to
    [hundredths / 100], and doubles compare as their hundredths do. *)
Definition centi : Type := N.

(** [round(n / (1024 * 1024), 2)] for an [int] [n >= 0].  The quotient
    by 2^20 is exact, and [round] is correctly rounded on it, an exact
    tie going to the even hundredth. *)
Definition round_mb (n : N) : centi :=
  let d := (1024 * 1024)%N in
  let q := (100 * n / d)%N in
  let r := (100 * n mod d)%N in
  if (2 * r <? d)%N then q
  else if (d <? 2 * r)%N then (q + 1)%N
  else if N.even q then q else (q + 1)%N.

End PyNum.

Export PyNum.

(* ================================================================== *)
(** ** The walk *)
(* ================================================================== *)

(** [os.stat_result], the two fields the tool reads. *)
Record Stat : Type := mkStat {
  st_size : N;      (* bytes *)
  st_mtime : Q      (* seconds since the epoch *)
}.

(** One path yielded by [path.rglob("*")] on which [is_file()] returns,
    with what the tool observes of it.  [is_file] is the boolean the
    loops test before their [try] block; [stat = None] when
    [file_path.stat()], called inside the [try] block, raises
    [PermissionError] or another [OSError].  A path on which [is_file()]
    itself raises is no [Entry]: it is the second case of [Probe]
    below. *)
Record Entry : Type := mkEntry {
  rel_path : string;        (* str(file_path.relative_to(path)) *)
  name : string;            (* file_path.name *)
  is_file : bool;           (* file_path.is_file() *)
  stat : option Stat        (* file_path.stat() *)
}.

(** One element of [results]: the dict with keys path, size_mb, reason. *)
Record Finding : Type := mkFinding {
  f_path : string;
  f_size_mb : centi;
  f_reason : string
}.

Global Instance Finding_eq_dec : EqDecision Finding.
Proof. solve_decision. Defined.

(** [file_path.suffix.lower()] *)
Definition suffix_lower (e : Entry) : string :=
  PyStr.lower (PyStr.suffix (name e)).

(* ================================================================== *)
(** ** [_scan_large_files] *)
(* ================================================================== *)

(** [results.sort(key=lambda x: x["size_mb"], reverse=True)].  Python's
    sort is stable, also under [reverse=True]; the stable sort is written
    here as a right-to-left insertion, an element going in front of the
    first one whose key is not larger. *)
Fixpoint insert_desc (x : Finding) (l : list Finding) : list Finding :=
  match l with
  | [] => [x]
  | y :: l' =>
      if (f_size_mb x <? f_size_mb y)%N then y :: insert_desc x l'
      else x :: l
  end.

Definition sort_desc (l : list Finding) : list Finding :=
  foldr insert_desc [] l.

(** The body of the [for] loop, on the pair [(results, total_size)]. *)
Definition large_step (min_bytes : pyfloat) (extensions : list string)
    (acc : list Finding * N) (e : Entry) : list Finding * N :=
  let '(results, total_size) := acc in
  if is_file e then
    match stat e with
    | Some s =>
        let size := st_size s in
        if int_ge_float size min_bytes then
          if (match extensions with [] => true | _ => false end)
             || PyStr.mem (suffix_lower e) extensions
          then (results ++ [mkFinding (rel_path e) (round_mb size) "Large file"],
                (total_size + size)%N)
          else acc
        else acc
    | None => acc                       (* except (PermissionError, OSError) *)
    end
  else acc.

Definition _scan_large_files (walk : list Entry) (min_size_mb : pyfloat)
    (extensions : list string) : list Finding * N :=
  let min_bytes := mul_mib min_size_mb in
  let '(results, total_size) :=
    fold_left (large_step min_bytes extensions) walk ([], 0%N) in
  (sort_desc results, total_size).

(* ================================================================== *)
(** ** [_scan_temp_files] *)
(* ================================================================== *)

Definition temp_extensions : list string :=
  [".tmp"; ".temp"; ".cache"; ".log"; ".bak"; "~"].

Definition temp_patterns : list string :=
  ["tmp"; "temp"; "cache"; "__pycache__"].

Definition is_temp (e : Entry) : bool :=
  PyStr.mem (suffix_lower e) temp_extensions
  || existsb (fun pattern => PyStr.contains pattern (PyStr.lower (name e)))
             temp_patterns.

Definition temp_step (acc : list Finding * N) (e : Entry)
    : list Finding * N :=
  let '(results, total_size) := acc in
  if is_file e then
    if is_temp e then
      match stat e with
      | Some s =>
          let size := st_size s in
          (results ++ [mkFinding (rel_path e) (round_mb size) "Temporary file"],
           (total_size + size)%N)
      | None => acc                     (* except (PermissionError, OSError) *)
      end
    else acc
  else acc.

Definition _scan_temp_files (walk : list Entry) : list Finding * N :=
  fold_left temp_step walk ([], 0%N).

(* ================================================================== *)
(** ** [_scan_old_files] *)
(* ================================================================== *)

(** [time.time()] is read several times during one scan.  A computation
    that reads the clock threads the number of readings made so far; the
    [k]-th reading of an invocation returns [clock k]. *)
Definition Clocked (A : Type) : Type := nat -> A * nat.

Definition cret {A : Type} (a : A) : Clocked A := fun k => (a, k).

Definition cbind {A B : Type} (m : Clocked A) (f : A -> Clocked B)
    : Clocked B :=
  fun k => let '(a, k') := m k in f a k'.

Notation "x <-- m ;; f" := (cbind m (fun x => f))
  (at level 100, m at next level, right associativity).

Definition time_time (clock : nat -> Q) : Clocked Q :=
  fun k => (clock k, S k).

Fixpoint cfold {A B : Type} (f : A -> B -> Clocked A) (l : list B) (a : A)
    : Clocked A :=
  match l with
  | [] => cret a
  | b :: l' => a' <-- f a b ;; cfold f l' a'
  end.

(** [f"Not modified in {age_days} days"] *)
Definition old_reason (age_days : Z) : string :=
  "Not modified in " +:+ pretty age_days +:+ " days".

Definition old_step (clock : nat -> Q) (cutoff_time : Q)
    (acc : list Finding * N) (e : Entry) : Clocked (list Finding * N) :=
  let '(results, total_size) := acc in
  if is_file e then
    match stat e with
    | Some s =>
        let mtime := st_mtime s in
        if Qlt_bool mtime cutoff_time then
          let size := st_size s in
          now <-- time_time clock ;;
          let age_days := int_of_float ((now - mtime) / (24 * 60 * 60))%Q in
          cret (results ++ [mkFinding (rel_path e) (round_mb size)
                                      (old_reason age_days)],
                (total_size + size)%N)
        else cret acc
    | None => cret acc                  (* except (PermissionError, OSError) *)
    end
  else cret acc.

Definition _scan_old_files (clock : nat -> Q) (walk : list Entry) (days : Z)
    : Clocked (list Finding * N) :=
  now0 <-- time_time clock ;;
  let cutoff_time := (now0 - inject_Z (days * 24 * 60 * 60)%Z)%Q in
  cfold (old_step clock cutoff_time) walk ([], 0%N).

(* ================================================================== *)
(** ** [_scan_duplicates] *)
(* ================================================================== *)

(** [size_groups]: a dict from byte size to the list of paths seen with
    that size.  A Python dict iterates in insertion order, which the
    second loop depends on, so the dict is the list of its items in
    insertion order, keys distinct. *)
Definition SizeGroups : Type := list (N * list Entry).

(** [size_groups.setdefault(size, []).append(file_path)] *)
Fixpoint setdefault_append (size : N) (file_path : Entry) (d : SizeGroups)
    : SizeGroups :=
  match d with
  | [] => [(size, [file_path])]
  | (k, files) :: d' =>
      if (k =? size)%N then (k, files ++ [file_path]) :: d'
      else (k, files) :: setdefault_append size file_path d'
  end.

Definition group_step (size_groups : SizeGroups) (e : Entry) : SizeGroups :=
  if is_file e then
    match stat e with
    | Some s => setdefault_append (st_size s) e size_groups
    | None => size_groups               (* except (PermissionError, OSError) *)
    end
  else size_groups.

(** [f"Potential duplicate ({len(files)} files with same size)"] *)
Definition dup_reason (k : nat) : string :=
  "Potential duplicate (" +:+ pretty k +:+ " files with same size)".

Definition dup_finding (size : N) (k : nat) (file_path : Entry) : Finding :=
  mkFinding (rel_path file_path) (round_mb size) (dup_reason k).

(** The body of the loop over [size_groups.items()]; the inner loop over
    [files[1:]] appends one Finding and adds [size] per file. *)
Definition dup_step (acc : list Finding * N) (item : N * list Entry)
    : list Finding * N :=
  let '(size, files) := item in
  if (1 <? length files)%nat && (0 <? size)%N then
    fold_left
      (fun '(results, total_size) file_path =>
         (results ++ [dup_finding size (length files) file_path],
          (total_size + size)%N))
      (tail files) acc
  else acc.

Definition _scan_duplicates (walk : list Entry) : list Finding * N :=
  let size_groups := fold_left group_step walk [] in
  fold_left dup_step size_groups ([], 0%N).

(* ================================================================== *)
(** ** Values, exceptions and the environment of [use] *)
(* ================================================================== *)

(** The Python values a caller can pass, directly or through JSON. *)
Inductive pyval : Type :=
| VNone
| VBool (b : bool)
| VInt (z : Z)
| VFloat (f : pyfloat)
| VStr (s : string)
| VList (l : list pyval)
| VDict (d : list (string * pyval)).

(** A dict with [str] keys, as the list of its items. *)
Definition pydict : Type := list (string * pyval).

(** [d.get(key, default)] *)
Fixpoint dict_get (d : pydict) (key : string) (default : pyval) : pyval :=
  match d with
  | [] => default
  | (k, v) :: d' => if String.eqb k key then v else dict_get d' key default
  end.

(** Truth value of an object, as [if x:] and [not x] test it. *)
Definition truthy (v : pyval) : bool :=
  match v with
  | VNone => false
  | VBool b => b
  | VInt z => negb (z =? 0)%Z
  | VFloat (Finite q) => negb (Qeq_bool q 0)
  | VFloat _ => true
  | VStr s => negb (String.eqb s EmptyString)
  | VList l => match l with [] => false | _ => true end
  | VDict d => match d with [] => false | _ => true end
  end.

Inductive exn : Type :=
| TypeError
| ValueError
| AttributeError
| OverflowError
| PermissionError
| RecursionError.

(** A computation that returns or raises. *)
Inductive outcome (A : Type) : Type :=
| Returned (a : A)
| Raised (e : exn).
Arguments Returned {A} a.
Arguments Raised {A} e.

Definition obind {A B : Type} (m : outcome A) (f : A -> outcome B)
    : outcome B :=
  match m with
  | Returned a => f a
  | Raised e => Raised e
  end.

Notation "x <~ m ;; f" := (obind m (fun x => f))
  (at level 100, m at next level, right associativity).

(** The return value of [use]: the dict handed to [json.dumps]. *)
Record ScanReport : Type := mkReport {
  r_scan_type : string;
  r_path : string;
  r_files_found : nat;
  r_total_size_mb : centi;
  r_files : list Finding;
  r_note : string
}.

Inductive scan_result : Type :=
| Report (r : ScanReport)
| ErrNotExist (path : pyval) (resolved_path : string) (hint : string)
    (* "Path '...' does not exist after expansion." *)
| ErrNotDir (path : pyval) (resolved_path : string)
    (* "Path '...' is not a directory." *)
| ErrUnknownScanType (scan_type : pyval)
    (* "Unknown scan_type: ..." *)
| ErrScanFailed (e : exn).
    (* "Scan failed: ..." *)

(** What the tool observes of the machine it runs on: the values these
    calls return when they return. *)
Record World : Type := mkWorld {
  os_nt : bool;                          (* os.name == "nt" *)
  env_userprofile : string;              (* os.environ.get("USERPROFILE", "") *)
  cwd : string;                          (* Path.cwd() *)
  home : string;                         (* Path.home() *)
  joinpath : string -> string -> string; (* a / b *)
  expand_resolve : string -> string;
    (* Path(os.path.expanduser(os.path.expandvars(s))).resolve() *)
  path_exists : string -> bool;          (* p.exists() *)
  path_is_dir : string -> bool;          (* p.is_dir() *)
  rglob : string -> list Entry;          (* p.rglob("*") *)
  clock : nat -> Q                       (* successive time.time() *)
}.

Definition dquote : string := String (ascii_of_nat 34) EmptyString.
Definition squote : string := String (ascii_of_nat 39) EmptyString.
Definition backslash : string := String (ascii_of_nat 92) EmptyString.

(* ================================================================== *)
(** ** [_resolve_scan_path] *)
(* ================================================================== *)

(** [s.strip(dquote).strip(squote)] *)
Definition strip_quotes (s : string) : string :=
  PyStr.strip_char (ascii_of_nat 39) (PyStr.strip_char (ascii_of_nat 34) s).

(** [Returned] is the path the function returns in a run in which
    [Path.home()], [expanduser()], [resolve()] and the [exists()] and
    [is_dir()] of the candidates return; [Raised AttributeError] is the
    error of a value without the method [strip].  A run in which one of
    those calls raises (no home directory, a refused query) is not
    described here; inside [use] the [try] block turns it into the
    error value of a failed scan. *)
Definition _resolve_scan_path (W : World) (raw_path : pyval)
    : outcome string :=
  if negb (truthy raw_path) then Returned (cwd W)
  else
    match raw_path with
    | VStr raw =>
        let alias := PyStr.lower (strip_quotes (PyStr.strip raw)) in
        if PyStr.mem alias ["downloads"; "download"; "dl"] then
          let candidates :=
            [joinpath W (home W) "Downloads"; joinpath W (home W) "downloads"]
            ++ (if os_nt W then
                  if negb (String.eqb (env_userprofile W) EmptyString) then
                    [joinpath W (env_userprofile W) "Downloads";
                     joinpath W (joinpath W (env_userprofile W) "OneDrive")
                              "Downloads"]
                  else []
                else []) in
          match find (fun c => path_exists W c && path_is_dir W c) candidates with
          | Some c => Returned c
          | None => Returned (joinpath W (home W) "Downloads")
          end
        else Returned (expand_resolve W (strip_quotes raw))
    | _ => Raised AttributeError         (* no method strip *)
    end.

(* ================================================================== *)
(** ** [FileScannerTool.use] *)
(* ================================================================== *)

(** The extension loop of [use]: split on commas, strip, lower-case, skip
    the empty tokens, prefix a dot where it is missing. *)
Definition ext_step (ext_list : list string) (e : string) : list string :=
  let e := PyStr.lower (PyStr.strip e) in
  if String.eqb e EmptyString then ext_list        (* continue *)
  else
    let e := if PyStr.startswith "." e then e else "." +:+ e in
    ext_list ++ [e].

Definition normalize_extensions (extensions : pyval) : outcome (list string) :=
  if truthy extensions then
    match extensions with
    | VStr s => Returned (fold_left ext_step (PyStr.split "," s) [])
    | _ => Raised AttributeError         (* no method split *)
    end
  else Returned [].

(** [scan_type == "..."] *)
Definition is_str (v : pyval) (s : string) : bool :=
  match v with
  | VStr s' => String.eqb s' s
  | _ => false
  end.

(** [path or ""], for the Windows hint. *)
Definition str_or_empty (v : pyval) : string :=
  match v with
  | VStr s => s
  | _ => EmptyString
  end.

Definition windows_hint : string :=
  "On Windows JSON strings, use double backslashes (e.g., C:\\Users\\Luke\\Downloads) or forward slashes (C:/Users/Luke/Downloads).".

Definition default_hint : string :=
  "Try an absolute path, forward slashes, or an alias like 'downloads'.".

Definition note_of (results : list Finding) : string :=
  if (20 <? length results)%nat then "Limited to first 20 files"
  else "All files shown".

(** The dict of the final [return json.dumps({...})]. *)
Definition make_report (scan_type scan_path : string)
    (res : list Finding * N) : ScanReport :=
  let '(results, total_size) := res in
  mkReport scan_type scan_path (length results) (round_mb total_size)
           (take 20 results) (note_of results).

(** The body of the [try] block. *)
Definition scan_body (W : World) (path : pyval) (min_size_mb : pyfloat)
    (extensions scan_type : pyval) : outcome scan_result :=
  scan_path <~ _resolve_scan_path W path ;;
  let hint :=
    if os_nt W then
      if PyStr.contains backslash (str_or_empty path)
         && negb (PyStr.contains (backslash +:+ backslash) (str_or_empty path))
      then Some windows_hint else None
    else None in
  if negb (path_exists W scan_path) then
    Returned (ErrNotExist path scan_path (default default_hint hint))
  else if negb (path_is_dir W scan_path) then
    Returned (ErrNotDir path scan_path)
  else
    ext_list <~ normalize_extensions extensions ;;
    let walk := rglob W scan_path in
    if is_str scan_type "large_files" then
      Returned (Report (make_report "large_files" scan_path
                          (_scan_large_files walk min_size_mb ext_list)))
    else if is_str scan_type "temp_files" then
      Returned (Report (make_report "temp_files" scan_path
                          (_scan_temp_files walk)))
    else if is_str scan_type "old_files" then
      Returned (Report (make_report "old_files" scan_path
                          (fst (_scan_old_files (clock W) walk 180 0%nat))))
    else if is_str scan_type "duplicates" then
      Returned (Report (make_report "duplicates" scan_path
                          (_scan_duplicates walk)))
    else Returned (ErrUnknownScanType scan_type).

(** [try: ... except Exception as e: return json.dumps({"error": ...})] *)
Definition try_scan (W : World) (path : pyval) (min_size_mb : pyfloat)
    (extensions scan_type : pyval) : scan_result :=
  match scan_body W path min_size_mb extensions scan_type with
  | Returned r => r
  | Raised e => ErrScanFailed e
  end.

(** The library functions [use] calls on strings.  They are not part of
    the tool; [use] is defined for any behaviour of theirs. *)
Section Use.

(** [float(s)] for a [str]; [None] when it raises [ValueError]. *)
Variable float_of_str : string -> option pyfloat.
(** [json.loads(s)]; [None] when it raises [JSONDecodeError]. *)
Variable json_loads : string -> option pyval.
(** [re.search] of the pattern for a quoted path key followed by a
    drive letter, colon and backslash: is there a match? *)
Variable re_has_win_drive : string -> bool.
(** [re.sub] doubling the backslashes in the value of the path key. *)
Variable re_escape_path : string -> string.
(** [re.search] of the pattern for a quoted path key and its quoted
    value: [group(2)] of the match, if any. *)
Variable re_path_value : string -> option string.

(** [float(v)] *)
Definition py_float (v : pyval) : outcome pyfloat :=
  match v with
  | VFloat f => Returned f
  | VInt z =>
      if (2 ^ 1024 - 2 ^ 970 <=? Z.abs z)%Z then Raised OverflowError
      else Returned (Finite (inject_Z z))
  | VBool b => Returned (Finite (if b then 1 else 0))
  | VStr s =>
      match float_of_str s with
      | Some f => Returned f
      | None => Raised ValueError
      end
  | VNone | VList _ | VDict _ => Raised TypeError
  end.

Inductive json_status : Type :=
| status_none
| auto_escaped_backslashes
| json_error_after_fix
| json_error.

(** The helper [_try_parse_json_with_backslash_fix]. *)
Definition _try_parse_json_with_backslash_fix (s : string)
    : option pyval * json_status :=
  match json_loads s with
  | Some v => (Some v, status_none)
  | None =>
      let looks_json :=
        PyStr.startswith "{" (PyStr.strip s)
        && (PyStr.contains (dquote +:+ "path" +:+ dquote) s
            || PyStr.contains (squote +:+ "path" +:+ squote) s) in
      let has_win_drive := re_has_win_drive s in
      if looks_json && has_win_drive then
        let s_fixed := re_escape_path s in
        match json_loads s_fixed with
        | Some v => (Some v, auto_escaped_backslashes)
        | None => (None, json_error_after_fix)
        end
      else (None, json_error)
  end.

(** The four values the input parsing binds. *)
Record Params : Type := mkParams {
  p_path : pyval;
  p_min_size_mb : pyfloat;
  p_extensions : pyval;
  p_scan_type : pyval
}.

(** The dict branches: [parsed.get(...)] and [kwargs.get(...)]. *)
Definition params_of_dict (d : pydict) : outcome Params :=
  let path := dict_get d "path" (VStr ".") in
  min_size_mb <~ py_float (dict_get d "min_size_mb" (VFloat (Finite 10))) ;;
  let extensions := dict_get d "extensions" (VStr EmptyString) in
  let scan_type := dict_get d "scan_type" (VStr "large_files") in
  Returned (mkParams path min_size_mb extensions scan_type).

(** The comma-separated fallback. *)
Definition params_of_text (tool_input : string) : Params :=
  let parts := map PyStr.strip (PyStr.split "," tool_input) in
  let raw := match parts with p0 :: _ => p0 | [] => "." end in
  let raw := match re_path_value raw with Some g2 => g2 | None => raw end in
  mkParams (VStr raw) (Finite 10)
           (VStr (match parts with _ :: p1 :: _ => p1 | _ => EmptyString end))
           (VStr (match parts with
                  | _ :: _ :: p2 :: _ => p2
                  | _ => "large_files"
                  end)).

(** Input parsing: the code of [use] before its [try] block. *)
Definition parse_input (args : list pyval) (kwargs : pydict)
    : outcome Params :=
  match args with
  | VStr tool_input :: _ =>
      match fst (_try_parse_json_with_backslash_fix tool_input) with
      | Some (VDict parsed) => params_of_dict parsed
      | _ => Returned (params_of_text tool_input)
      end
  | _ =>
      match kwargs with
      | _ :: _ => params_of_dict kwargs
      | [] => Returned (mkParams (VStr ".") (Finite 10) (VStr EmptyString)
                                 (VStr "large_files"))
      end
  end.

(** The public operation [use], on its positional and keyword
    arguments: [Raised] is an exception that reaches the caller. *)
Definition use (W : World) (args : list pyval) (kwargs : pydict)
    : outcome scan_result :=
  p <~ parse_input args kwargs ;;
  Returned (try_scan W (p_path p) (p_min_size_mb p) (p_extensions p)
                     (p_scan_type p)).

End Use.

(* ================================================================== *)
(** ** The walk when [is_file()] can raise *)
(* ================================================================== *)

(** The four loops call [file_path.is_file()] before their [try] block.
    Up to Python 3.13 [Path.is_file] re-raises an [OSError] other than
    the few that mean a missing file, a [PermissionError] among them; the
    exception then leaves the loop and the scan.  A walk in which that
    can happen is a list of probes: a path that answers, or a path on
    which [is_file()] raises. *)
Inductive Probe : Type :=
| Answered (e : Entry)
| IsFileRaises (rel : string) (err : exn).

(** A loop whose body can raise: the first exception ends it. *)
Fixpoint ofold {A B : Type} (f : A -> B -> outcome A) (l : list B) (a : A)
    : outcome A :=
  match l with
  | [] => Returned a
  | b :: l' => a' <~ f a b ;; ofold f l' a'
  end.

(** One turn of a loop: [is_file()] first, then the body as before. *)
Definition probed {A : Type} (step : A -> Entry -> A) (acc : A) (p : Probe)
    : outcome A :=
  match p with
  | Answered e => Returned (step acc e)
  | IsFileRaises _ err => Raised err
  end.

Definition _scan_large_files_probed (walk : list Probe)
    (min_size_mb : pyfloat) (extensions : list string)
    : outcome (list Finding * N) :=
  let min_bytes := mul_mib min_size_mb in
  acc <~ ofold (probed (large_step min_bytes extensions)) walk ([], 0%N) ;;
  let '(results, total_size) := acc in
  Returned (sort_desc results, total_size).

Definition _scan_temp_files_probed (walk : list Probe)
    : outcome (list Finding * N) :=
  ofold (probed temp_step) walk ([], 0%N).

Fixpoint old_loop_probed (clock : nat -> Q) (cutoff_time : Q)
    (walk : list Probe) (acc : list Finding * N) (k : nat)
    : outcome (list Finding * N * nat) :=
  match walk with
  | [] => Returned (acc, k)
  | Answered e :: walk' =>
      let '(acc', k') := old_step clock cutoff_time acc e k in
      old_loop_probed clock cutoff_time walk' acc' k'
  | IsFileRaises _ err :: _ => Raised err
  end.

Definition _scan_old_files_probed (clock : nat -> Q) (walk : list Probe)
    (days : Z) (k : nat) : outcome (list Finding * N * nat) :=
  let '(now0, k1) := time_time clock k in
  let cutoff_time := (now0 - inject_Z (days * 24 * 60 * 60)%Z)%Q in
  old_loop_probed clock cutoff_time walk ([], 0%N) k1.

Definition _scan_duplicates_probed (walk : list Probe)
    : outcome (list Finding * N) :=
  size_groups <~ ofold (probed group_step) walk [] ;;
  Returned (fold_left dup_step size_groups ([], 0%N)).

(** The body of the [try] block of [use] over such a walk of the root. *)
Definition scan_body_probed (W : World) (walk : list Probe) (path : pyval)
    (min_size_mb : pyfloat) (extensions scan_type : pyval)
    : outcome scan_result :=
  scan_path <~ _resolve_scan_path W path ;;
  let hint :=
    if os_nt W then
      if PyStr.contains backslash (str_or_empty path)
         && negb (PyStr.contains (backslash +:+ backslash) (str_or_empty path))
      then Some windows_hint else None
    else None in
  if negb (path_exists W scan_path) then
    Returned (ErrNotExist path scan_path (default default_hint hint))
  else if negb (path_is_dir W scan_path) then
    Returned (ErrNotDir path scan_path)
  else
    ext_list <~ normalize_extensions extensions ;;
    if is_str scan_type "large_files" then
      res <~ _scan_large_files_probed walk min_size_mb ext_list ;;
      Returned (Report (make_report "large_files" scan_path res))
    else if is_str scan_type "temp_files" then
      res <~ _scan_temp_files_probed walk ;;
      Returned (Report (make_report "temp_files" scan_path res))
    else if is_str scan_type "old_files" then
      res <~ _scan_old_files_probed (clock W) walk 180 0%nat ;;
      Returned (Report (make_report "old_files" scan_path (fst res)))
    else if is_str scan_type "duplicates" then
      res <~ _scan_duplicates_probed walk ;;
      Returned (Report (make_report "duplicates" scan_path res))
    else Returned (ErrUnknownScanType scan_type).

(** [try: ... except Exception as e: return json.dumps({"error": ...})] *)
Definition try_scan_probed (W : World) (walk : list Probe) (path : pyval)
    (min_size_mb : pyfloat) (extensions scan_type : pyval) : scan_result :=
  match scan_body_probed W walk path min_size_mb extensions scan_type with
  | Returned r => r
  | Raised e => ErrScanFailed e
  end.

(* ================================================================== *)
(** ** [use] when [json.loads] can raise *)
(* ================================================================== *)

(** The helper of [use] catches [json.JSONDecodeError] only, and runs
    before the [try] block of [use]: whatever else [json.loads] raises
    (a [RecursionError] on deeply nested text, a [ValueError] on an
    overlong integer) reaches the caller. *)
Section UseExc.

Variable float_of_str : string -> option pyfloat.
(** [json.loads(s)]: [Returned None] when it raises [JSONDecodeError],
    [Raised e] when it raises anything else. *)
Variable json_loads_exc : string -> outcome (option pyval).
Variable re_has_win_drive : string -> bool.
Variable re_escape_path : string -> string.
Variable re_path_value : string -> option string.

Definition _try_parse_json_exc (s : string)
    : outcome (option pyval * json_status) :=
  first <~ json_loads_exc s ;;
  match first with
  | Some v => Returned (Some v, status_none)
  | None =>
      let looks_json :=
        PyStr.startswith "{" (PyStr.strip s)
        && (PyStr.contains (dquote +:+ "path" +:+ dquote) s
            || PyStr.contains (squote +:+ "path" +:+ squote) s) in
      let has_win_drive := re_has_win_drive s in
      if looks_json && has_win_drive then
        let s_fixed := re_escape_path s in
        second <~ json_loads_exc s_fixed ;;
        match second with
        | Some v => Returned (Some v, auto_escaped_backslashes)
        | None => Returned (None, json_error_after_fix)
        end
      else Returned (None, json_error)
  end.

Definition parse_input_exc (args : list pyval) (kwargs : pydict)
    : outcome Params :=
  match args with
  | VStr tool_input :: _ =>
      parsed <~ _try_parse_json_exc tool_input ;;
      match fst parsed with
      | Some (VDict d) => params_of_dict float_of_str d
      | _ => Returned (params_of_text re_path_value tool_input)
      end
  | _ =>
      match kwargs with
      | _ :: _ => params_of_dict float_of_str kwargs
      | [] => Returned (mkParams (VStr ".") (Finite 10) (VStr EmptyString)
                                 (VStr "large_files"))
      end
  end.

Definition use_exc (W : World) (args : list pyval) (kwargs : pydict)
    : outcome scan_result :=
  p <~ parse_input_exc args kwargs ;;
  Returned (try_scan W (p_path p) (p_min_size_mb p) (p_extensions p)
                     (p_scan_type p)).

End UseExc.

(* ================================================================== *)
(** ** Reference descriptions of the classifiers

    The definitions of this part are not translated from the code: they
    say, file by file, which entries of a walk a classifier reports, and
    are what the classifiers above are compared with. *)
(* ================================================================== *)

(** The byte size [file_path.stat().st_size] of a readable entry. *)
Definition raw_size (e : Entry) : N :=
  match stat e with
  | Some s => st_size s
  | None => 0%N
  end.

(** A regular file whose metadata can be read. *)
Definition readable (e : Entry) : bool :=
  is_file e && match stat e with Some _ => true | None => false end.

Definition sum_sizes (l : list Entry) : N :=
  fold_right (fun e acc => (raw_size e + acc)%N) 0%N l.

Definition is_nil {A : Type} (l : list A) : bool :=
  match l with [] => true | _ => false end.

(** Large-File: size at least the minimum and extension allowed. *)
Definition large_qualifies (min_bytes : pyfloat) (E : list string)
    (e : Entry) : bool :=
  readable e && int_ge_float (raw_size e) min_bytes
  && (is_nil E || PyStr.mem (suffix_lower e) E).

Definition large_finding (e : Entry) : Finding :=
  mkFinding (rel_path e) (round_mb (raw_size e)) "Large file".

(** Temporary-File, as the code decides it. *)
Definition temp_qualifies (e : Entry) : bool := readable e && is_temp e.

Definition temp_finding (e : Entry) : Finding :=
  mkFinding (rel_path e) (round_mb (raw_size e)) "Temporary file".

(** Temporary-File, as the specification words it: one of the five
    extensions, or a bare trailing tilde, or one of the substrings. *)
Definition ends_with_tilde (s : string) : bool :=
  PyStr.startswith "~" (String.rev s).

Definition temp_by_spec (nm : string) : bool :=
  PyStr.mem (PyStr.lower (PyStr.suffix nm))
            [".tmp"; ".temp"; ".cache"; ".log"; ".bak"]
  || ends_with_tilde nm
  || existsb (fun pattern => PyStr.contains pattern (PyStr.lower nm))
             ["tmp"; "temp"; "cache"; "__pycache__"].

(** Stale-File: modified strictly before the cutoff. *)
Definition mtime_of (e : Entry) : Q :=
  match stat e with
  | Some s => st_mtime s
  | None => 0
  end.

Definition old_qualifies (cutoff_time : Q) (e : Entry) : bool :=
  readable e && Qlt_bool (mtime_of e) cutoff_time.

(** The Finding of a stale file whose age is taken at the instant [now]. *)
Definition old_finding (now : Q) (e : Entry) : Finding :=
  mkFinding (rel_path e) (round_mb (raw_size e))
            (old_reason (int_of_float ((now - mtime_of e) / 86400))).

(** The qualifying files in walk order, the [i]-th of them dated by the
    clock reading number [k + i]. *)
Fixpoint old_findings (clock : nat -> Q) (k : nat) (quals : list Entry)
    : list Finding :=
  match quals with
  | [] => []
  | e :: quals' => old_finding (clock k) e :: old_findings clock (S k) quals'
  end.

(** Duplicate-Candidate: the group of a size, in walk order. *)
Definition members (walk : list Entry) (size : N) : list Entry :=
  List.filter (fun e => readable e && (raw_size e =? size)%N) walk.

(** The sizes of the readable files, each once, in order of first
    appearance. *)
Fixpoint sizes_seen (walk : list Entry) : list N :=
  match walk with
  | [] => []
  | e :: walk' =>
      if readable e
      then raw_size e
           :: List.filter (fun s => negb (s =? raw_size e)%N) (sizes_seen walk')
      else sizes_seen walk'
  end.

(** The files a group reports: none for size 0 or fewer than two members,
    otherwise every member but the first. *)
Definition dup_reported (walk : list Entry) (size : N) : list Entry :=
  let g := members walk size in
  if (size =? 0)%N then []
  else if (length g <? 2)%nat then []
  else tail g.

Definition dup_group (walk : list Entry) (size : N) : list Finding :=
  map (dup_finding size (length (members walk size)))
      (dup_reported walk size).

(** The extension filter, token by token. *)
Definition norm_token (tok : string) : list string :=
  let e := PyStr.lower (PyStr.strip tok) in
  if String.eqb e EmptyString then []
  else [if PyStr.startswith "." e then e else "." +:+ e].

Definition norm_spec (s : string) : list string :=
  flat_map norm_token (PyStr.split "," s).

(** A supplied extension string none of whose tokens is valid. *)
Definition zero_valid_entries (s : string) : Prop :=
  s <> EmptyString /\
  Forall (fun tok => PyStr.lower (PyStr.strip tok) = EmptyString)
         (PyStr.split "," s).

(** The files behind a classifier's output: as many as the Findings, each
    Finding carrying the path and the rounded size of its file, and the
    byte total being the sum of their raw sizes. *)
Definition finding_key (fd : Finding) : string * centi :=
  (f_path fd, f_size_mb fd).

Definition entry_key (e : Entry) : string * centi :=
  (rel_path e, round_mb (raw_size e)).

Definition accounts_for (walk : list Entry) (res : list Finding * N)
    (quals : list Entry) : Prop :=
  quals ⊆+ walk /\
  Forall (fun e => readable e = true) quals /\
  map finding_key (fst res) ≡ₚ map entry_key quals /\
  snd res = sum_sizes quals.

(** ** Sample data *)

Definition MiB : N := (1024 * 1024)%N.

Definition zip60 : Entry :=
  mkEntry "backup.zip" "backup.zip" true (Some (mkStat (60 * MiB) 0)).
Definition txt60 : Entry :=
  mkEntry "notes.txt" "notes.txt" true (Some (mkStat (60 * MiB) 0)).
Definition zip10 : Entry :=
  mkEntry "small.zip" "small.zip" true (Some (mkStat (10 * MiB) 0)).

Definition three_same_size : list Entry :=
  [ mkEntry "a.bin" "a.bin" true (Some (mkStat 4096 0));
    mkEntry "sub" "sub" false (Some (mkStat 4096 0));
    mkEntry "sub/b.bin" "b.bin" true (Some (mkStat 4096 7));
    mkEntry "sub/locked" "locked" true None;
    mkEntry "sub/c.dat" "c.dat" true (Some (mkStat 4096 9)) ].

Definition reason_of_three : string :=
  "Potential duplicate (3 files with same size)".

Definition day : Q := 86400.

Definition sample_clock (k : nat) : Q := inject_Z (20000000 + Z.of_nat k).

Definition stale200 : Entry :=
  mkEntry "old.doc" "old.doc" true (Some (mkStat 2048 2720000)).

(** A Finding that carries the path of a readable regular file of the
    walk and that file's raw size, converted and rounded. *)
Definition rounded_from (walk : list Entry) (fd : Finding) : Prop :=
  exists e s,
    In e walk /\ is_file e = true /\ stat e = Some s /\
    f_path fd = rel_path e /\ f_size_mb fd = round_mb (st_size s).

(** What the dispatch of [use] runs for a scan type. *)
Definition classifier_output (W : World) (scan_path : string)
    (min_size_mb : pyfloat) (ext_list : list string) (scan_type : pyval)
    (res : list Finding * N) : Prop :=
  let walk := rglob W scan_path in
  (scan_type = VStr "large_files"
   /\ res = _scan_large_files walk min_size_mb ext_list)
  \/ (scan_type = VStr "temp_files" /\ res = _scan_temp_files walk)
  \/ (scan_type = VStr "old_files"
      /\ res = fst (_scan_old_files (clock W) walk 180 0%nat))
  \/ (scan_type = VStr "duplicates" /\ res = _scan_duplicates walk).

(** A machine on which every path is an existing directory holding the
    given tree, and library functions that parse nothing. *)
Definition sample_world (walk : list Entry) : World :=
  mkWorld false EmptyString "/work" "/home/u"
          (fun a b => a +:+ "/" +:+ b) (fun s => s)
          (fun _ => true) (fun _ => true) (fun _ => walk) sample_clock.

Definition no_float (s : string) : option pyfloat := None.
Definition no_json (s : string) : option pyval := None.
Definition no_match (s : string) : bool := false.
Definition no_sub (s : string) : string := s.
Definition no_group (s : string) : option string := None.

Definition cache_file : Entry :=
  mkEntry "build.cache" "build.cache" true (Some (mkStat 600000 0)).

Definition many_caches : list Entry := repeat cache_file 25.

Definition sample_report : ScanReport :=
  mkReport "temp_files" "/work" 25 1431%N
    (repeat (mkFinding "build.cache" 57%N "Temporary file") 20)
    "Limited to first 20 files".

(** A tree in which [is_file()] is refused on one path. *)
Definition locked_walk : list Probe :=
  [Answered zip60; IsFileRaises "sub/locked.tmp" PermissionError;
   Answered txt60].

(** A parser that exhausts the recursion limit on every text. *)
Definition json_too_deep (s : string) : outcome (option pyval) :=
  Raised RecursionError.

(** An editor backup file. *)
Definition tilde_backup : Entry :=
  mkEntry "notes.txt~" "notes.txt~" true (Some (mkStat 120 0)).

Definition json_always_ten (s : string) : option pyval :=
  Some (VDict [("path", VStr "/work"); ("min_size_mb", VStr "ten")]).

(** The same machine with another tree under every root. *)
Definition with_walk (W : World) (walk : list Entry) : World :=
  mkWorld (os_nt W) (env_userprofile W) (cwd W) (home W) (joinpath W)
          (expand_resolve W) (path_exists W) (path_is_dir W)
          (fun _ => walk) (clock W).

(** The orderings of the sort, and the size groups as a dict. *)
Definition desc (a b : Finding) : Prop := (f_size_mb b <= f_size_mb a)%N.

Definition same_mb (c : centi) (fd : Finding) : bool := (f_size_mb fd =? c)%N.

Definition group_of (walk : list Entry) (size : N) : N * list Entry :=
  (size, members walk size).

Definition N_mem (x : N) (l : list N) : bool := existsb (N.eqb x) l.

(** ** Vocabulary of the further properties *)

(** The spellings [_resolve_scan_path] takes for the downloads folder. *)
Definition download_aliases : list string := ["downloads"; "download"; "dl"].

(** [raw_path.strip().strip(dquote).strip(squote).lower()] is an alias. *)
Definition is_alias (raw : string) : bool :=
  PyStr.mem (PyStr.lower (strip_quotes (PyStr.strip raw))) download_aliases.

(** The list [candidates] of [_resolve_scan_path], in its order. *)
Definition download_candidates (W : World) : list string :=
  [joinpath W (home W) "Downloads"; joinpath W (home W) "downloads"]
  ++ (if os_nt W then
        if negb (String.eqb (env_userprofile W) EmptyString) then
          [joinpath W (env_userprofile W) "Downloads";
           joinpath W (joinpath W (env_userprofile W) "OneDrive") "Downloads"]
        else []
      else []).

(** [c.exists() and c.is_dir()] *)
Definition usable_dir (W : World) (c : string) : bool :=
  path_exists W c && path_is_dir W c.

(** The four scan types [use] dispatches on. *)
Definition known_scan_types : list string :=
  ["large_files"; "temp_files"; "old_files"; "duplicates"].

(** [c in s] for a character. *)
Fixpoint has_char (c : ascii) (s : string) : bool :=
  match s with
  | EmptyString => false
  | String a r => Ascii.eqb a c || has_char c r
  end.

(** [d.get(size)] on the size groups. *)
Fixpoint groups_get (d : SizeGroups) (size : N) : option (list Entry) :=
  match d with
  | [] => None
  | (k, files) :: d' => if (k =? size)%N then Some files else groups_get d' size
  end.

(** A machine without any directory. *)
Definition nowhere_world : World :=
  mkWorld false EmptyString "/work" "/home/u"
          (fun a b => a +:+ "/" +:+ b) (fun s => s)
          (fun _ => false) (fun _ => false) (fun _ => []) sample_clock.

(** A clock that never runs backwards from its [k]-th reading on. *)
Definition clock_not_before (clk : nat -> Q) (k : nat) : Prop :=
  forall i, (clk k <= clk (k + i)%nat)%Q.

(** The entry [e] under another file name. *)
Definition rename (e : Entry) (nm : string) : Entry :=
  mkEntry (rel_path e) nm (is_file e) (stat e).

(** What a duplicate Finding says apart from the path. *)
Definition dup_key (fd : Finding) : centi * string :=
  (f_size_mb fd, f_reason fd).

(** [s.rstrip(chars)] by recursion on the string: the characters of a
    trailing run are dropped, the others kept. *)
Fixpoint rstrip_rec (p : ascii -> bool) (s : string) : string :=
  match s with
  | EmptyString => EmptyString
  | String c r =>
      let r' := rstrip_rec p r in
      if p c && String.eqb r' EmptyString then EmptyString else String c r'
  end.

(** The string is empty or starts with a character outside the set. *)
Definition starts_clean (p : ascii -> bool) (s : string) : bool :=
  match s with
  | EmptyString => true
  | String c _ => negb (p c)
  end.

(** The sum of the [size_mb] fields of a list of Findings, in hundredths. *)
Definition sum_mb (l : list Finding) : N :=
  fold_right (fun fd acc => (f_size_mb fd + acc)%N) 0%N l.

(* ================================================================== *)
(** * Properties *)
(* ================================================================== *)

(** ** Loops that append one Finding per qualifying entry *)

Section FilterLoops.

Variable q : Entry -> bool.
Variable F : Entry -> Finding.
Variable step : list Finding * N -> Entry -> list Finding * N.
Hypothesis step_yes : forall r t e,
  q e = true -> step (r, t) e = (r ++ [F e], (t + raw_size e)%N).
Hypothesis step_no : forall acc e, q e = false -> step acc e = acc.

Lemma fold_filter_loop (l : list Entry) (r : list Finding) (t : N) :
  fold_left step l (r, t)
  = (r ++ map F (List.filter q l), (t + sum_sizes (List.filter q l))%N).
Proof.
  revert r t. induction l as [|e l IH]; intros r t; simpl.
  - by rewrite app_nil_r, N.add_0_r.
  - destruct (q e) eqn:Hq.
    + rewrite step_yes by done. rewrite IH. simpl.
      by rewrite <- app_assoc, N.add_assoc.
    + rewrite step_no by done. apply IH.
Qed.

End FilterLoops.

Lemma readable_true (e : Entry) :
  readable e = true <-> is_file e = true /\ exists s, stat e = Some s.
Proof.
  unfold readable. destruct (is_file e), (stat e) as [s|]; simpl;
    split; try (intros [? [? ?]]); try done; eauto.
Qed.

Lemma raw_size_stat (e : Entry) (s : Stat) :
  stat e = Some s -> raw_size e = st_size s.
Proof. unfold raw_size. by intros ->. Qed.

Lemma large_step_yes mb E r t e :
  large_qualifies mb E e = true ->
  large_step mb E (r, t) e = (r ++ [large_finding e], (t + raw_size e)%N).
Proof.
  unfold large_qualifies, large_step, large_finding, readable, raw_size, is_nil.
  destruct (is_file e), (stat e) as [s|]; simpl; try done.
  destruct (int_ge_float (st_size s) mb); simpl; try done.
  destruct E; simpl; [done|]. by intros ->.
Qed.

Lemma large_step_no mb E acc e :
  large_qualifies mb E e = false -> large_step mb E acc e = acc.
Proof.
  unfold large_qualifies, large_step, readable, raw_size, is_nil.
  destruct acc as [r t].
  destruct (is_file e), (stat e) as [s|]; simpl; try done.
  destruct (int_ge_float (st_size s) mb); simpl; try done.
  destruct E; simpl; [done|]. by intros ->.
Qed.

Lemma scan_large_files_eq walk m E :
  _scan_large_files walk m E
  = (sort_desc (map large_finding
                    (List.filter (large_qualifies (mul_mib m) E) walk)),
     sum_sizes (List.filter (large_qualifies (mul_mib m) E) walk)).
Proof.
  unfold _scan_large_files.
  rewrite (fold_filter_loop (large_qualifies (mul_mib m) E) large_finding)
    by auto using large_step_yes, large_step_no.
  by rewrite N.add_0_l.
Qed.

(** ** The descending stable sort *)

Lemma insert_desc_perm x l : insert_desc x l ≡ₚ x :: l.
Proof.
  induction l as [|y l IH]; simpl; [done|].
  destruct (f_size_mb x <? f_size_mb y)%N; [|done].
  rewrite IH. apply Permutation_swap.
Qed.

Lemma sort_desc_perm l : sort_desc l ≡ₚ l.
Proof.
  induction l as [|x l IH]; simpl; [done|].
  unfold sort_desc in *. simpl. rewrite insert_desc_perm. by rewrite IH.
Qed.

Lemma insert_desc_sorted x l :
  StronglySorted desc l -> StronglySorted desc (insert_desc x l).
Proof.
  induction 1 as [|y l Hs IH Hy]; simpl.
  - repeat constructor.
  - destruct (f_size_mb x <? f_size_mb y)%N eqn:Hlt.
    + constructor; [done|].
      apply N.ltb_lt in Hlt.
      rewrite Forall_forall. intros z Hz.
      rewrite insert_desc_perm in Hz.
      apply elem_of_cons in Hz as [->|Hz]; [unfold desc; lia|].
      by apply (proj1 (Forall_forall (desc y) l) Hy).
    + apply N.ltb_ge in Hlt.
      constructor; [by constructor|].
      constructor; [done|].
      eapply Forall_impl; [exact Hy|].
      unfold desc. intros z Hz. simpl in *. lia.
Qed.

Lemma sort_desc_sorted l : StronglySorted desc (sort_desc l).
Proof.
  induction l as [|x l IH]; simpl; [constructor|].
  by apply insert_desc_sorted.
Qed.

(** Stability: the Findings of one [size_mb] keep their relative order. *)

Lemma insert_desc_stable c x l :
  List.filter (same_mb c) (insert_desc x l) = List.filter (same_mb c) (x :: l).
Proof.
  induction l as [|y l IH]; simpl; [done|].
  destruct (f_size_mb x <? f_size_mb y)%N eqn:Hlt; [|done].
  apply N.ltb_lt in Hlt. simpl. rewrite IH. simpl.
  unfold same_mb.
  destruct (f_size_mb x =? c)%N eqn:Hx, (f_size_mb y =? c)%N eqn:Hy; try done.
  apply N.eqb_eq in Hx, Hy. lia.
Qed.

Lemma sort_desc_stable c l :
  List.filter (same_mb c) (sort_desc l) = List.filter (same_mb c) l.
Proof.
  induction l as [|x l IH]; [done|].
  change (sort_desc (x :: l)) with (insert_desc x (sort_desc l)).
  rewrite insert_desc_stable. simpl. by rewrite IH.
Qed.

(** A sorted list read by index: an earlier Finding is not smaller. *)
Lemma sorted_lookup (l : list Finding) i j a b :
  StronglySorted desc l -> (i < j)%nat ->
  l !! i = Some a -> l !! j = Some b -> desc a b.
Proof.
  intros Hs. revert i j. induction Hs as [|x l Hs IH Hx]; intros i j Hij Hi Hj.
  - done.
  - destruct j as [|j]; [lia|]. simpl in Hj.
    destruct i as [|i]; simpl in Hi.
    + injection Hi as <-.
      apply (proj1 (Forall_forall (desc x) l) Hx).
      by eapply list_elem_of_lookup_2.
    + apply (IH i j); [lia|done..].
Qed.

(** ** Large files *)

Lemma mem_In (x : string) (l : list string) : PyStr.mem x l = true <-> In x l.
Proof.
  unfold PyStr.mem. rewrite existsb_exists. split.
  - intros [y [Hy Heq]]. apply String.eqb_eq in Heq. by subst.
  - intros H. exists x. split; [done|]. apply String.eqb_refl.
Qed.

Lemma is_nil_true {A : Type} (l : list A) : is_nil l = true <-> l = [].
Proof. by destruct l. Qed.

Lemma large_qualifies_iff (m : Q) (E : list string) (e : Entry) :
  large_qualifies (mul_mib (Finite m)) E e = true <->
  is_file e = true /\
  exists s, stat e = Some s /\
    (m * 1024 * 1024 <= inject_Z (Z.of_N (st_size s)))%Q /\
    (E = [] \/ In (suffix_lower e) E).
Proof.
  unfold large_qualifies. rewrite !andb_true_iff, orb_true_iff.
  rewrite readable_true, is_nil_true, mem_In. simpl. rewrite Qle_bool_iff.
  split.
  - intros [[[Hf [s Hs]] Hge] HE]. split; [done|]. exists s.
    by rewrite <- (raw_size_stat e s Hs).
  - intros [Hf [s [Hs [Hge HE]]]]. rewrite (raw_size_stat e s Hs). eauto.
Qed.

(** C2.  Large-File mode with minimum [m] megabytes and extension filter
    [E]: a readable regular file is reported, with reason "Large file",
    exactly when its size is at least [m * 1024 * 1024] bytes and [E] is
    empty or contains its lower-cased extension; each such file gives one
    Finding; the Findings are in descending order of [size_mb], those of
    equal [size_mb] in walk order; and with [m = 50] and the filter
    [.iso, .zip] a 60 MB zip file is reported while a 60 MB txt file and
    a 10 MB zip file are not. *)
Theorem large_files_spec (walk : list Entry) (m : Q) (E : list string) :
  let quals := List.filter (large_qualifies (mul_mib (Finite m)) E) walk in
  let results := fst (_scan_large_files walk (Finite m) E) in
  (forall e, large_qualifies (mul_mib (Finite m)) E e = true <->
     is_file e = true /\
     exists s, stat e = Some s /\
       (m * 1024 * 1024 <= inject_Z (Z.of_N (st_size s)))%Q /\
       (E = [] \/ In (suffix_lower e) E))
  /\ results ≡ₚ map large_finding quals
  /\ (forall fd, In fd results <->
        exists e, In e walk /\ large_qualifies (mul_mib (Finite m)) E e = true
                  /\ fd = mkFinding (rel_path e) (round_mb (raw_size e))
                                    "Large file")
  /\ StronglySorted desc results
  /\ (forall i a b, results !! i = Some a -> results !! S i = Some b ->
        (f_size_mb b <= f_size_mb a)%N)
  /\ (forall c, List.filter (same_mb c) results
                = List.filter (same_mb c) (map large_finding quals))
  /\ (forall p nm t,
        large_qualifies (mul_mib (Finite 50)) [".iso"; ".zip"]
          (mkEntry p nm true (Some (mkStat (60 * MiB) t)))
        = PyStr.mem (PyStr.lower (PyStr.suffix nm)) [".iso"; ".zip"])
  /\ (forall p nm t,
        large_qualifies (mul_mib (Finite 50)) [".iso"; ".zip"]
          (mkEntry p nm true (Some (mkStat (10 * MiB) t))) = false)
  /\ _scan_large_files [zip60; txt60; zip10] (Finite 50) [".iso"; ".zip"]
     = ([mkFinding "backup.zip" 6000%N "Large file"], (60 * MiB)%N).
Proof.
  intros quals results.
  assert (Hres : results = sort_desc (map large_finding quals)).
  { unfold results. by rewrite scan_large_files_eq. }
  split; [apply large_qualifies_iff|].
  split; [rewrite Hres; apply sort_desc_perm|].
  split.
  { intros fd. rewrite Hres. rewrite <- !list_elem_of_In.
    rewrite sort_desc_perm. rewrite list_elem_of_In, in_map_iff.
    unfold quals. split.
    - intros [e [<- He]]. apply filter_In in He as [He Hq]. by exists e.
    - intros [e [He [Hq ->]]]. exists e. split; [done|].
      apply filter_In. by split. }
  split; [rewrite Hres; apply sort_desc_sorted|].
  split.
  { intros i a b Ha Hb.
    apply (sorted_lookup results i (S i) a b); [|lia|done..].
    rewrite Hres. apply sort_desc_sorted. }
  split; [intros c; rewrite Hres; apply sort_desc_stable|].
  split; [|split]; [| |by vm_compute].
  - intros p nm t. unfold large_qualifies, readable, raw_size. simpl.
    by vm_compute (Qle_bool _ _).
  - intros p nm t. unfold large_qualifies, readable, raw_size. simpl.
    by vm_compute (Qle_bool _ _).
Qed.

Lemma large_files_spec_witness :
  (f_size_mb (mkFinding "notes.txt" 6000%N "Large file")
   <= f_size_mb (mkFinding "backup.zip" 6000%N "Large file"))%N.
Proof.
  pose proof (large_files_spec [zip60; txt60; zip10] 0 []) as H.
  destruct H as (_ & _ & _ & _ & Hadj & _).
  apply (Hadj 0%nat); reflexivity.
Defined.

(** ** Duplicates: the size groups *)

Lemma N_mem_In x l : N_mem x l = true <-> In x l.
Proof.
  unfold N_mem. rewrite existsb_exists. split.
  - intros [y [Hy Heq]]. apply N.eqb_eq in Heq. by subst.
  - intros H. exists x. split; [done|]. apply N.eqb_refl.
Qed.

Lemma N_mem_filter_ne x s l :
  x <> s -> N_mem x (List.filter (fun y => negb (y =? s)%N) l) = N_mem x l.
Proof.
  intros Hne. apply eq_true_iff_eq. rewrite !N_mem_In, filter_In.
  rewrite negb_true_iff, N.eqb_neq. naive_solver.
Qed.

Lemma members_snoc walk e size :
  members (walk ++ [e]) size
  = members walk size
    ++ (if readable e && (raw_size e =? size)%N then [e] else []).
Proof. unfold members. by rewrite List.filter_app. Qed.

Lemma sizes_seen_snoc walk e :
  sizes_seen (walk ++ [e])
  = sizes_seen walk
    ++ (if readable e && negb (N_mem (raw_size e) (sizes_seen walk))
        then [raw_size e] else []).
Proof.
  induction walk as [|e0 walk IH]; simpl.
  - destruct (readable e); by simpl.
  - destruct (readable e0) eqn:H0; [|done].
    rewrite IH, List.filter_app. f_equal. f_equal.
    destruct (readable e) eqn:He; simpl; [|done].
    destruct (N.eq_dec (raw_size e) (raw_size e0)) as [Heq|Hne].
    + rewrite Heq, N.eqb_refl. simpl.
      by destruct (negb (N_mem (raw_size e0) (sizes_seen walk))); simpl;
        rewrite ?N.eqb_refl.
    + rewrite (proj2 (N.eqb_neq _ _) Hne). simpl.
      rewrite N_mem_filter_ne by done.
      destruct (negb (N_mem (raw_size e) (sizes_seen walk))); simpl; [|done].
      by rewrite (proj2 (N.eqb_neq _ _) Hne).
Qed.

Lemma sizes_seen_In walk s :
  In s (sizes_seen walk) <->
  exists e, In e walk /\ readable e = true /\ raw_size e = s.
Proof.
  induction walk as [|e0 walk IH]; simpl.
  - naive_solver.
  - destruct (readable e0) eqn:H0; simpl.
    + rewrite filter_In, IH, negb_true_iff, N.eqb_neq. split.
      * intros [<-|[[e [He [Hr <-]]] Hne]]; [by exists e0; auto|].
        exists e; auto.
      * intros [e [[<-|He] [Hr <-]]]; [by left|].
        destruct (N.eq_dec (raw_size e0) (raw_size e)); [by left|].
        right. split; [by exists e|congruence].
    + rewrite IH. split.
      * intros [e [He Hr]]. exists e; auto.
      * intros [e [[<-|He] [Hr <-]]]; [congruence|]. by exists e.
Qed.

Lemma sizes_seen_NoDup walk : List.NoDup (sizes_seen walk).
Proof.
  induction walk as [|e0 walk IH]; simpl; [constructor|].
  destruct (readable e0); [|done].
  constructor.
  - rewrite filter_In, negb_true_iff, N.eqb_neq. naive_solver.
  - by apply List.NoDup_filter.
Qed.

Lemma members_nil_not_seen walk size :
  ~ In size (sizes_seen walk) -> members walk size = [].
Proof.
  intros Hn. unfold members.
  induction walk as [|e walk IH]; simpl; [done|].
  destruct (readable e && (raw_size e =? size)%N) eqn:Hq.
  - exfalso. apply Hn. apply andb_true_iff in Hq as [Hr Hs].
    apply N.eqb_eq in Hs. apply sizes_seen_In. exists e. simpl. auto.
  - apply IH. intros Hin. apply Hn. apply sizes_seen_In.
    apply sizes_seen_In in Hin as [e' [? ?]]. exists e'. simpl. auto.
Qed.

(** [setdefault(...).append(...)] on a dict given by its keys. *)
Lemma setdefault_append_map (g : N -> list Entry) size e ss :
  List.NoDup ss ->
  setdefault_append size e (map (fun s => (s, g s)) ss)
  = if N_mem size ss
    then map (fun s => (s, g s ++ (if (s =? size)%N then [e] else []))) ss
    else map (fun s => (s, g s)) ss ++ [(size, [e])].
Proof.
  induction 1 as [|k ss Hk Hnd IH]; simpl; [done|].
  destruct (N.eq_dec k size) as [->|Hne].
  - rewrite !N.eqb_refl. simpl. f_equal.
    apply map_ext_in. intros s Hs.
    destruct (N.eq_dec s size) as [->|Hs']; [done|].
    by rewrite (proj2 (N.eqb_neq _ _) Hs'), app_nil_r.
  - rewrite (proj2 (N.eqb_neq _ _) Hne).
    assert ((size =? k)%N = false) as -> by (apply N.eqb_neq; congruence).
    simpl. rewrite IH, app_nil_r. by destruct (N_mem size ss).
Qed.

Lemma size_groups_eq walk :
  fold_left group_step walk [] = map (group_of walk) (sizes_seen walk).
Proof.
  induction walk as [|e walk IH] using rev_ind; [done|].
  rewrite fold_left_app. simpl. rewrite IH. clear IH.
  rewrite sizes_seen_snoc. unfold group_step, group_of.
  unfold readable at 1. unfold raw_size at 1 2.
  destruct (is_file e) eqn:Hf, (stat e) as [st|] eqn:Hst; simpl.
  - rewrite (setdefault_append_map (members walk)) by apply sizes_seen_NoDup.
    destruct (N_mem (st_size st) (sizes_seen walk)) eqn:Hm; simpl.
    + rewrite app_nil_r. apply map_ext. intros s. rewrite members_snoc.
      unfold readable, raw_size. rewrite Hf, Hst. simpl.
      by rewrite N.eqb_sym.
    + rewrite map_app. simpl. f_equal.
      * apply map_ext_in. intros s Hs. rewrite members_snoc.
        unfold readable, raw_size. rewrite Hf, Hst. simpl.
        destruct (N.eq_dec (st_size st) s) as [Heq|Hne].
        -- apply N_mem_In in Hs. congruence.
        -- by rewrite (proj2 (N.eqb_neq _ _) Hne), app_nil_r.
      * rewrite members_snoc. rewrite members_nil_not_seen.
        -- unfold readable, raw_size. rewrite Hf, Hst. simpl.
           by rewrite N.eqb_refl.
        -- rewrite <- N_mem_In. by rewrite Hm.
  - rewrite app_nil_r. apply map_ext. intros s. rewrite members_snoc.
    unfold readable. rewrite Hf, Hst. simpl. by rewrite app_nil_r.
  - rewrite app_nil_r. apply map_ext. intros s. rewrite members_snoc.
    unfold readable. rewrite Hf. simpl. by rewrite app_nil_r.
  - rewrite app_nil_r. apply map_ext. intros s. rewrite members_snoc.
    unfold readable. rewrite Hf. simpl. by rewrite app_nil_r.
Qed.

(** ** Duplicates: the reporting loop *)

Lemma sum_sizes_app l1 l2 :
  sum_sizes (l1 ++ l2) = (sum_sizes l1 + sum_sizes l2)%N.
Proof.
  induction l1 as [|e l1 IH]; simpl; [done|]. rewrite IH. lia.
Qed.

Lemma members_In walk size e :
  In e (members walk size) <->
  In e walk /\ readable e = true /\ raw_size e = size.
Proof.
  unfold members. rewrite filter_In, andb_true_iff, N.eqb_eq. tauto.
Qed.

Lemma sum_sizes_same size l :
  Forall (fun e => raw_size e = size) l ->
  sum_sizes l = (size * N.of_nat (length l))%N.
Proof.
  induction 1 as [|e l He Hl IH]; simpl; [lia|]. rewrite IH, He. lia.
Qed.

Lemma tail_In {A : Type} (x : A) (l : list A) : In x (tail l) -> In x l.
Proof. destruct l; simpl; auto. Qed.

Lemma dup_inner_loop size k fs r t :
  fold_left
    (fun '(results, total_size) file_path =>
       (results ++ [dup_finding size k file_path], (total_size + size)%N))
    fs (r, t)
  = (r ++ map (dup_finding size k) fs, (t + size * N.of_nat (length fs))%N).
Proof.
  revert r t. induction fs as [|f fs IH]; intros r t; simpl.
  - rewrite app_nil_r. f_equal. lia.
  - rewrite IH, <- app_assoc. simpl. f_equal. lia.
Qed.

Lemma dup_reported_sizes walk size :
  Forall (fun e => raw_size e = size) (dup_reported walk size).
Proof.
  rewrite Forall_forall. intros e He. apply list_elem_of_In in He.
  unfold dup_reported in He.
  destruct (size =? 0)%N; [done|].
  destruct (length (members walk size) <? 2)%nat; [done|].
  apply tail_In, members_In in He. tauto.
Qed.

Lemma dup_step_group walk size r t :
  dup_step (r, t) (group_of walk size)
  = (r ++ dup_group walk size,
     (t + sum_sizes (dup_reported walk size))%N).
Proof.
  rewrite (sum_sizes_same size) by apply dup_reported_sizes.
  unfold dup_step, group_of, dup_group, dup_reported.
  destruct (N.eq_dec size 0%N) as [->|Hne].
  - simpl. rewrite andb_false_r, app_nil_r. f_equal. lia.
  - rewrite (proj2 (N.eqb_neq _ _) Hne).
    assert ((0 <? size)%N = true) as -> by (apply N.ltb_lt; lia).
    rewrite andb_true_r.
    destruct (length (members walk size)) as [|[|n]] eqn:Hlen; simpl.
    + rewrite app_nil_r. f_equal. lia.
    + rewrite app_nil_r. f_equal. lia.
    + apply dup_inner_loop.
Qed.

Lemma dup_loop walk ss r t :
  fold_left dup_step (map (group_of walk) ss) (r, t)
  = (r ++ flat_map (dup_group walk) ss,
     (t + sum_sizes (flat_map (dup_reported walk) ss))%N).
Proof.
  revert r t. induction ss as [|s ss IH]; intros r t;
    cbn [map fold_left flat_map].
  - rewrite app_nil_r. simpl. f_equal. lia.
  - rewrite dup_step_group, IH, sum_sizes_app, <- app_assoc. f_equal. lia.
Qed.

Lemma scan_duplicates_eq walk :
  _scan_duplicates walk
  = (flat_map (dup_group walk) (sizes_seen walk),
     sum_sizes (flat_map (dup_reported walk) (sizes_seen walk))).
Proof.
  unfold _scan_duplicates. rewrite size_groups_eq, dup_loop.
  by rewrite N.add_0_l.
Qed.

Lemma dup_group_zero walk : dup_group walk 0%N = [].
Proof. done. Qed.

Lemma dup_group_many walk size :
  size <> 0%N -> (2 <= length (members walk size))%nat ->
  dup_group walk size
  = map (dup_finding size (length (members walk size)))
        (tail (members walk size)).
Proof.
  intros Hne Hlen. unfold dup_group, dup_reported.
  rewrite (proj2 (N.eqb_neq _ _) Hne).
  by rewrite (proj2 (Nat.ltb_ge _ _) Hlen).
Qed.

Lemma flat_map_all_nil {A B : Type} (f : A -> list B) (l : list A) :
  (forall x, In x l -> f x = []) -> flat_map f l = [].
Proof.
  induction l as [|x l IH]; simpl; [done|]. intros H.
  rewrite (H x) by auto. apply IH. auto.
Qed.

(** C1.  Duplicates mode groups every readable regular file of the walk
    under its exact byte size, the groups in order of first appearance
    and each group in walk order.  A group of non-zero size with at least
    two members reports every member but the first, each with reason
    "Potential duplicate (K files with same size)", K the number of
    members of the whole group; a group of size 0 reports nothing,
    however many members it has.  Three files sharing one non-zero size
    give two Findings, both with the reason for 3 files. *)
Theorem duplicates_spec (walk : list Entry) :
  fold_left group_step walk [] = map (group_of walk) (sizes_seen walk)
  /\ List.NoDup (sizes_seen walk)
  /\ (forall e, In e walk -> readable e = true ->
        In (raw_size e) (sizes_seen walk)
        /\ In e (members walk (raw_size e)))
  /\ _scan_duplicates walk
     = (flat_map (dup_group walk) (sizes_seen walk),
        sum_sizes (flat_map (dup_reported walk) (sizes_seen walk)))
  /\ (forall size, size <> 0%N -> (2 <= length (members walk size))%nat ->
        dup_group walk size
        = map (fun e =>
                 mkFinding (rel_path e) (round_mb size)
                   ("Potential duplicate ("
                    +:+ pretty (length (members walk size))
                    +:+ " files with same size)"))
              (tail (members walk size)))
  /\ (forall size, (length (members walk size) < 2)%nat ->
        dup_group walk size = [])
  /\ dup_group walk 0%N = []
  /\ (Forall (fun e => readable e = true -> raw_size e = 0%N) walk ->
      fst (_scan_duplicates walk) = [])
  /\ (forall size, size <> 0%N -> length (members walk size) = 3%nat ->
        length (dup_group walk size) = 2%nat
        /\ Forall (fun fd => f_reason fd = reason_of_three)
                  (dup_group walk size))
  /\ (forall size, size <> 0%N -> sizes_seen walk = [size] ->
        length (members walk size) = 3%nat ->
        length (fst (_scan_duplicates walk)) = 2%nat
        /\ Forall (fun fd => f_reason fd = reason_of_three)
                  (fst (_scan_duplicates walk))).
Proof.
  assert (Hthree : forall size, size <> 0%N ->
            length (members walk size) = 3%nat ->
            length (dup_group walk size) = 2%nat
            /\ Forall (fun fd => f_reason fd = reason_of_three)
                      (dup_group walk size)).
  { intros size Hne Hlen. rewrite dup_group_many by (done || lia).
    rewrite Hlen.
    destruct (members walk size) as [|a [|b [|c [|d l]]]]; try done.
    simpl. split; [done|]. by repeat constructor. }
  split; [apply size_groups_eq|].
  split; [apply sizes_seen_NoDup|].
  split.
  { intros e He Hr. split.
    - apply sizes_seen_In. by exists e.
    - by apply members_In. }
  split; [apply scan_duplicates_eq|].
  split; [intros size Hne Hlen; by apply dup_group_many|].
  split.
  { intros size Hlen. unfold dup_group, dup_reported.
    rewrite (proj2 (Nat.ltb_lt _ _) Hlen). by destruct (size =? 0)%N. }
  split; [done|].
  split.
  { intros Hzero. rewrite scan_duplicates_eq. simpl.
    apply flat_map_all_nil. intros s Hs.
    apply sizes_seen_In in Hs as [e [He [Hr <-]]].
    rewrite Forall_forall in Hzero.
    apply list_elem_of_In in He. by rewrite (Hzero e He Hr). }
  split; [exact Hthree|].
  intros size Hne Hss Hlen. rewrite scan_duplicates_eq, Hss. simpl.
  rewrite app_nil_r. by apply Hthree.
Qed.

Lemma duplicates_spec_witness :
  length (fst (_scan_duplicates three_same_size)) = 2%nat
  /\ Forall (fun fd => f_reason fd = reason_of_three)
            (fst (_scan_duplicates three_same_size)).
Proof.
  pose proof (duplicates_spec three_same_size) as H.
  destruct H as (_ & _ & _ & _ & _ & _ & _ & _ & _ & H).
  apply (H 4096%N); [discriminate|reflexivity|reflexivity].
Defined.

(** ** Temporary files *)

Lemma temp_step_yes r t e :
  temp_qualifies e = true ->
  temp_step (r, t) e = (r ++ [temp_finding e], (t + raw_size e)%N).
Proof.
  unfold temp_qualifies, temp_step, temp_finding, readable, raw_size.
  destruct (is_file e), (stat e) as [s|]; simpl; try done.
  by intros ->.
Qed.

Lemma temp_step_no acc e :
  temp_qualifies e = false -> temp_step acc e = acc.
Proof.
  unfold temp_qualifies, temp_step, readable. destruct acc as [r t].
  destruct (is_file e), (stat e) as [s|], (is_temp e); simpl; done.
Qed.

Lemma scan_temp_files_eq walk :
  _scan_temp_files walk
  = (map temp_finding (List.filter temp_qualifies walk),
     sum_sizes (List.filter temp_qualifies walk)).
Proof.
  unfold _scan_temp_files.
  rewrite (fold_filter_loop temp_qualifies temp_finding)
    by auto using temp_step_yes, temp_step_no.
  by rewrite N.add_0_l.
Qed.

(** ** Stale files *)

Lemma old_step_yes clock cutoff r t e k :
  old_qualifies cutoff e = true ->
  old_step clock cutoff (r, t) e k
  = ((r ++ [old_finding (clock k) e], (t + raw_size e)%N), S k).
Proof.
  unfold old_qualifies, old_step, old_finding, readable, raw_size, mtime_of.
  destruct (is_file e), (stat e) as [s|]; simpl; try done.
  by intros ->.
Qed.

Lemma old_step_no clock cutoff acc e k :
  old_qualifies cutoff e = false ->
  old_step clock cutoff acc e k = (acc, k).
Proof.
  unfold old_qualifies, old_step, readable, mtime_of. destruct acc as [r t].
  destruct (is_file e), (stat e) as [s|]; simpl; try done.
  by intros ->.
Qed.

Lemma old_loop clock cutoff l r t k :
  cfold (old_step clock cutoff) l (r, t) k
  = ((r ++ old_findings clock k (List.filter (old_qualifies cutoff) l),
      (t + sum_sizes (List.filter (old_qualifies cutoff) l))%N),
     (k + length (List.filter (old_qualifies cutoff) l))%nat).
Proof.
  revert r t k. induction l as [|e l IH]; intros r t k;
    cbn [cfold List.filter].
  - unfold cret. simpl. rewrite app_nil_r. f_equal; [f_equal; lia|lia].
  - unfold cbind. destruct (old_qualifies cutoff e) eqn:Hq.
    + rewrite old_step_yes by done. rewrite IH. simpl.
      rewrite <- app_assoc. simpl. f_equal; [f_equal; lia|lia].
    + rewrite old_step_no by done. apply IH.
Qed.

Lemma scan_old_files_eq clock walk days k :
  let cutoff := (clock k - inject_Z (days * 24 * 60 * 60))%Q in
  let quals := List.filter (old_qualifies cutoff) walk in
  _scan_old_files clock walk days k
  = ((old_findings clock (S k) quals, sum_sizes quals),
     (S k + length quals)%nat).
Proof.
  intros cutoff quals. unfold _scan_old_files, cbind, time_time.
  rewrite old_loop. simpl. by rewrite N.add_0_l.
Qed.

Lemma old_findings_lookup clock k quals i e :
  quals !! i = Some e ->
  old_findings clock k quals !! i = Some (old_finding (clock (k + i)%nat) e).
Proof.
  revert k i. induction quals as [|e0 quals IH]; intros k i; [done|].
  destruct i as [|i]; simpl.
  - intros [= ->]. by rewrite Nat.add_0_r.
  - intros H. rewrite (IH (S k) i H).
    by replace (S k + i)%nat with (k + S i)%nat by lia.
Qed.

Lemma old_findings_length clock k quals :
  length (old_findings clock k quals) = length quals.
Proof.
  revert k. induction quals as [|e quals IH]; intros k; simpl; [done|].
  by rewrite IH.
Qed.

Lemma Qlt_bool_iff (a b : Q) : Qlt_bool a b = true <-> (a < b)%Q.
Proof.
  unfold Qlt_bool. rewrite negb_true_iff. split.
  - intros H. apply Qnot_le_lt. intros Hle.
    apply Qle_bool_iff in Hle. congruence.
  - intros H. destruct (Qle_bool b a) eqn:Hle; [|done].
    apply Qle_bool_iff in Hle. exfalso. by apply (Qlt_not_le a b).
Qed.

Lemma old_qualifies_iff cutoff e :
  old_qualifies cutoff e = true <->
  is_file e = true /\ exists s, stat e = Some s /\ (st_mtime s < cutoff)%Q.
Proof.
  unfold old_qualifies. rewrite andb_true_iff, readable_true, Qlt_bool_iff.
  unfold mtime_of. split.
  - intros [[Hf [s Hs]] Hlt]. rewrite Hs in Hlt. eauto.
  - intros [Hf [s [Hs Hlt]]]. rewrite Hs. eauto.
Qed.

(** ** Entries whose metadata cannot be read *)

Lemma fold_left_skip {A B : Type} (f : A -> B -> A) (l1 l2 : list B)
    (b : B) (a : A) :
  (forall a', f a' b = a') ->
  fold_left f (l1 ++ b :: l2) a = fold_left f (l1 ++ l2) a.
Proof.
  intros Hskip. rewrite !fold_left_app. simpl. by rewrite Hskip.
Qed.

Lemma cfold_app {A B : Type} (f : A -> B -> Clocked A) (l1 l2 : list B)
    (a : A) (k : nat) :
  cfold f (l1 ++ l2) a k
  = let '(a', k') := cfold f l1 a k in cfold f l2 a' k'.
Proof.
  revert a k. induction l1 as [|b l1 IH]; intros a k; simpl; [done|].
  unfold cbind. destruct (f a b k) as [a' k']. apply IH.
Qed.

Lemma cfold_skip {A B : Type} (f : A -> B -> Clocked A) (l1 l2 : list B)
    (b : B) (a : A) (k : nat) :
  (forall a' k', f a' b k' = (a', k')) ->
  cfold f (l1 ++ b :: l2) a k = cfold f (l1 ++ l2) a k.
Proof.
  intros Hskip. rewrite !cfold_app.
  destruct (cfold f l1 a k) as [a' k']. simpl. unfold cbind.
  by rewrite Hskip.
Qed.

Lemma resolve_with_walk W walk path :
  _resolve_scan_path (with_walk W walk) path = _resolve_scan_path W path.
Proof. reflexivity. Qed.

(** Where [is_file()] answers on every path, an entry whose [stat()]
    raises [PermissionError] or another [OSError] is skipped in every
    mode: the scan of a walk that contains it returns exactly what the
    scan of the walk without it returns, the Findings, the byte total and
    (for stale files) the clock readings. *)
Lemma stat_failure_is_skipped (walk1 walk2 : list Entry) (e : Entry) :
  stat e = None ->
  (forall m E, _scan_large_files (walk1 ++ e :: walk2) m E
               = _scan_large_files (walk1 ++ walk2) m E)
  /\ _scan_temp_files (walk1 ++ e :: walk2) = _scan_temp_files (walk1 ++ walk2)
  /\ (forall clock days k,
        _scan_old_files clock (walk1 ++ e :: walk2) days k
        = _scan_old_files clock (walk1 ++ walk2) days k)
  /\ _scan_duplicates (walk1 ++ e :: walk2) = _scan_duplicates (walk1 ++ walk2)
  /\ (forall W path m exts scan_type,
        try_scan (with_walk W (walk1 ++ e :: walk2)) path m exts scan_type
        = try_scan (with_walk W (walk1 ++ walk2)) path m exts scan_type).
Proof.
  intros Hstat.
  assert (Hlarge : forall m E,
            _scan_large_files (walk1 ++ e :: walk2) m E
            = _scan_large_files (walk1 ++ walk2) m E).
  { intros m E. unfold _scan_large_files. rewrite fold_left_skip; [done|].
    intros [r t]. unfold large_step. rewrite Hstat. by destruct (is_file e). }
  assert (Htemp : _scan_temp_files (walk1 ++ e :: walk2)
                  = _scan_temp_files (walk1 ++ walk2)).
  { unfold _scan_temp_files. rewrite fold_left_skip; [done|].
    intros [r t]. unfold temp_step. rewrite Hstat.
    by destruct (is_file e), (is_temp e). }
  assert (Hold : forall clock days k,
            _scan_old_files clock (walk1 ++ e :: walk2) days k
            = _scan_old_files clock (walk1 ++ walk2) days k).
  { intros clock days k. unfold _scan_old_files, cbind, time_time.
    rewrite cfold_skip; [done|].
    intros [r t] k'. unfold old_step. rewrite Hstat.
    by destruct (is_file e). }
  assert (Hdup : _scan_duplicates (walk1 ++ e :: walk2)
                 = _scan_duplicates (walk1 ++ walk2)).
  { unfold _scan_duplicates. rewrite fold_left_skip; [done|].
    intros d. unfold group_step. rewrite Hstat. by destruct (is_file e). }
  repeat split; try done.
  intros W path m exts scan_type. unfold try_scan, scan_body.
  rewrite !resolve_with_walk.
  destruct (_resolve_scan_path W path) as [sp|ex]; [|done].
  cbn [obind with_walk os_nt path_exists path_is_dir rglob clock].
  destruct (negb (path_exists W sp)); [done|].
  destruct (negb (path_is_dir W sp)); [done|].
  destruct (normalize_extensions exts) as [ext_list|ex]; [|done].
  cbn [obind]. by rewrite Hlarge, Htemp, Hold, Hdup.
Qed.

(** *** A failure of [is_file()] *)

Lemma ofold_answered {A : Type} (step : A -> Entry -> A) walk a :
  ofold (probed step) (map Answered walk) a
  = Returned (fold_left step walk a).
Proof.
  revert a. induction walk as [|e walk IH]; intros a; simpl; [done|].
  apply IH.
Qed.

Lemma ofold_raises {A : Type} (step : A -> Entry -> A) pre rel err rest a :
  ofold (probed step) (map Answered pre ++ IsFileRaises rel err :: rest) a
  = Raised err.
Proof.
  revert a. induction pre as [|e pre IH]; intros a; simpl; [done|].
  apply IH.
Qed.

Lemma old_loop_probed_answered clock c walk acc k :
  old_loop_probed clock c (map Answered walk) acc k
  = Returned (cfold (old_step clock c) walk acc k).
Proof.
  revert acc k. induction walk as [|e walk IH]; intros acc k; simpl;
    [done|].
  unfold cbind. destruct (old_step clock c acc e k) as [acc' k'].
  apply IH.
Qed.

Lemma old_loop_probed_raises clock c pre rel err rest acc k :
  old_loop_probed clock c (map Answered pre ++ IsFileRaises rel err :: rest)
                  acc k
  = Raised err.
Proof.
  revert acc k. induction pre as [|e pre IH]; intros acc k; simpl; [done|].
  destruct (old_step clock c acc e k) as [acc' k']. apply IH.
Qed.

(** Where [is_file()] answers on every path, the loops are the ones of
    the first part. *)
Lemma scans_probed_answered (walk : list Entry) :
  (forall m E, _scan_large_files_probed (map Answered walk) m E
               = Returned (_scan_large_files walk m E))
  /\ _scan_temp_files_probed (map Answered walk)
     = Returned (_scan_temp_files walk)
  /\ (forall clock days k,
        _scan_old_files_probed clock (map Answered walk) days k
        = Returned (_scan_old_files clock walk days k))
  /\ _scan_duplicates_probed (map Answered walk)
     = Returned (_scan_duplicates walk).
Proof.
  repeat split.
  - intros m E. unfold _scan_large_files_probed, _scan_large_files.
    rewrite ofold_answered. cbn [obind].
    by destruct (fold_left _ walk _).
  - unfold _scan_temp_files_probed, _scan_temp_files. apply ofold_answered.
  - intros clock days k.
    unfold _scan_old_files_probed, _scan_old_files, cbind, time_time.
    apply old_loop_probed_answered.
  - unfold _scan_duplicates_probed, _scan_duplicates.
    by rewrite ofold_answered.
Qed.

Lemma try_scan_probed_answered W walk path m exts scan_type :
  try_scan_probed W (map Answered walk) path m exts scan_type
  = try_scan (with_walk W walk) path m exts scan_type.
Proof.
  destruct (scans_probed_answered walk) as (Hl & Ht & Ho & Hd).
  unfold try_scan_probed, scan_body_probed, try_scan, scan_body.
  rewrite resolve_with_walk.
  destruct (_resolve_scan_path W path) as [sp|ex]; [|done].
  cbn [obind with_walk os_nt path_exists path_is_dir rglob clock].
  destruct (negb (path_exists W sp)); [done|].
  destruct (negb (path_is_dir W sp)); [done|].
  destruct (normalize_extensions exts) as [ext_list|ex]; [|done].
  cbn [obind]. rewrite Hl, Ht, Ho, Hd. cbn [obind].
  by repeat destruct (is_str scan_type _).
Qed.

(** C9.  The claim fails where the refusal comes from [is_file()], which
    every loop calls before its [try] block: the exception ends the loop
    whatever the mode, whatever was scanned before and whatever follows,
    and [use] answers with the error value of a failed scan and no
    report, where the same call on a tree in which every path answers
    returns a report. *)
Theorem is_file_error_aborts_scan (W : World) (pre : list Entry)
    (rel : string) (err : exn) (rest : list Probe) (path : pyval)
    (root : string) (m : pyfloat) (exts scan_type : pyval)
    (ext_list : list string) :
  _resolve_scan_path W path = Returned root ->
  path_exists W root = true ->
  path_is_dir W root = true ->
  normalize_extensions exts = Returned ext_list ->
  (exists s, In s known_scan_types /\ scan_type = VStr s) ->
  let walk := map Answered pre ++ IsFileRaises rel err :: rest in
  _scan_large_files_probed walk m ext_list = Raised err
  /\ _scan_temp_files_probed walk = Raised err
  /\ (forall clock days k,
        _scan_old_files_probed clock walk days k = Raised err)
  /\ _scan_duplicates_probed walk = Raised err
  /\ try_scan_probed W walk path m exts scan_type = ErrScanFailed err
  /\ (forall others : list Entry,
        exists r,
          try_scan_probed W (map Answered others) path m exts scan_type
          = Report r).
Proof.
  intros Hres Hex Hdir Hext (s & Hs & ->) walk.
  assert (Hl : _scan_large_files_probed walk m ext_list = Raised err).
  { unfold _scan_large_files_probed, walk. by rewrite ofold_raises. }
  assert (Ht : _scan_temp_files_probed walk = Raised err).
  { unfold _scan_temp_files_probed, walk. apply ofold_raises. }
  assert (Ho : forall clock days k,
            _scan_old_files_probed clock walk days k = Raised err).
  { intros clock days k. unfold _scan_old_files_probed, time_time, walk.
    apply old_loop_probed_raises. }
  assert (Hd : _scan_duplicates_probed walk = Raised err).
  { unfold _scan_duplicates_probed, walk. by rewrite ofold_raises. }
  do 4 (split; [assumption|]). split.
  - unfold try_scan_probed, scan_body_probed. rewrite Hres. cbn [obind].
    rewrite Hex, Hdir, Hext. cbn [negb obind].
    rewrite Hl, Ht, Ho, Hd.
    unfold known_scan_types in Hs. cbn [In] in Hs.
    by destruct Hs as [<-|[<-|[<-|[<-|[]]]]].
  - intros others. rewrite try_scan_probed_answered.
    unfold try_scan, scan_body. rewrite resolve_with_walk, Hres.
    cbn [obind with_walk os_nt path_exists path_is_dir rglob clock].
    rewrite Hex, Hdir, Hext. cbn [negb obind].
    unfold known_scan_types in Hs. cbn [In] in Hs.
    destruct Hs as [<-|[<-|[<-|[<-|[]]]]]; cbn [is_str String.eqb];
      by eexists.
Qed.

Lemma is_file_error_aborts_scan_witness :
  try_scan_probed (sample_world []) locked_walk (VStr "/work") (Finite 10)
                  (VStr ".tmp") (VStr "temp_files")
  = ErrScanFailed PermissionError.
Proof.
  destruct (is_file_error_aborts_scan
              (sample_world []) [zip60] "sub/locked.tmp" PermissionError
              [Answered txt60] (VStr "/work") "/work" (Finite 10)
              (VStr ".tmp") (VStr "temp_files") [".tmp"])
    as (_ & _ & _ & _ & H & _);
    [reflexivity|reflexivity|reflexivity|reflexivity| |exact H].
  exists "temp_files". split; [right; by left|reflexivity].
Defined.

(** ** The size of a Finding *)

Lemma round_mb_nearest (n : N) :
  let h := Z.of_N (round_mb n) in
  let x := (100 * Z.of_N n)%Z in
  (2 * Z.abs (x - h * 1048576) <= 1048576)%Z
  /\ ((2 * Z.abs (x - h * 1048576) = 1048576)%Z -> Z.even h = true).
Proof.
  unfold round_mb. change (1024 * 1024)%N with 1048576%N.
  pose proof (N.div_mod (100 * n) 1048576 ltac:(lia)) as Hdm.
  pose proof (N.mod_lt (100 * n) 1048576 ltac:(lia)) as Hlt.
  set (q := (100 * n / 1048576)%N) in *.
  set (r := ((100 * n) mod 1048576)%N) in *.
  destruct (2 * r <? 1048576)%N eqn:H1.
  - apply N.ltb_lt in H1. simpl. split; lia.
  - apply N.ltb_ge in H1.
    destruct (1048576 <? 2 * r)%N eqn:H2.
    + apply N.ltb_lt in H2. simpl. split; lia.
    + apply N.ltb_ge in H2.
      destruct (N.even q) eqn:He; simpl.
      * split; [lia|]. intros _. rewrite Z.even_spec.
        apply N.even_spec in He as [k Hk]. exists (Z.of_N k). lia.
      * split; [lia|]. intros _. rewrite Z.even_spec.
        assert (Ho : N.odd q = true) by (by rewrite <- N.negb_even, He).
        apply N.odd_spec in Ho as [k Hk]. exists (Z.of_N k + 1)%Z. lia.
Qed.

Lemma old_findings_In clock k quals fd :
  In fd (old_findings clock k quals) ->
  exists e now, In e quals /\ fd = old_finding now e.
Proof.
  revert k. induction quals as [|e quals IH]; intros k; simpl; [done|].
  intros [<-|H]; [by exists e, (clock k); auto|].
  destruct (IH _ H) as [e' [now [He' ->]]]. exists e', now. auto.
Qed.

Lemma readable_rounded_from walk e fd :
  In e walk -> readable e = true ->
  f_path fd = rel_path e -> f_size_mb fd = round_mb (raw_size e) ->
  rounded_from walk fd.
Proof.
  intros He Hr Hp Hs. apply readable_true in Hr as [Hf [s Hst]].
  exists e, s. rewrite <- (raw_size_stat e s Hst). auto.
Qed.

(** C8.  Whatever the classifier, a Finding carries the path of a
    readable regular file of the walk, and its [size_mb] is that file's
    raw byte size divided by 1024 * 1024 and rounded to two decimals:
    the hundredth nearest to the quotient, an exact tie going to the
    even hundredth as Python's [round] does. *)
Theorem size_mb_is_rounded_raw_size (walk : list Entry) (fd : Finding) :
  (forall m E, In fd (fst (_scan_large_files walk m E)) ->
     rounded_from walk fd)
  /\ (In fd (fst (_scan_temp_files walk)) -> rounded_from walk fd)
  /\ (forall clock days k,
        In fd (fst (fst (_scan_old_files clock walk days k))) ->
        rounded_from walk fd)
  /\ (In fd (fst (_scan_duplicates walk)) -> rounded_from walk fd)
  /\ (forall n,
        let h := Z.of_N (round_mb n) in
        let x := (100 * Z.of_N n)%Z in
        (2 * Z.abs (x - h * (1024 * 1024)) <= 1024 * 1024)%Z
        /\ ((2 * Z.abs (x - h * (1024 * 1024)) = 1024 * 1024)%Z ->
            Z.even h = true)).
Proof.
  split; [|split; [|split; [|split]]].
  - intros m E. rewrite scan_large_files_eq. simpl.
    rewrite <- list_elem_of_In, sort_desc_perm, list_elem_of_In, in_map_iff.
    intros [e [<- He]]. apply filter_In in He as [He Hq].
    unfold large_qualifies in Hq. rewrite !andb_true_iff in Hq.
    apply (readable_rounded_from walk e); tauto.
  - rewrite scan_temp_files_eq. simpl. rewrite in_map_iff.
    intros [e [<- He]]. apply filter_In in He as [He Hq].
    unfold temp_qualifies in Hq. rewrite andb_true_iff in Hq.
    apply (readable_rounded_from walk e); tauto.
  - intros clock days k. rewrite scan_old_files_eq. simpl.
    intros H. apply old_findings_In in H as [e [now [He ->]]].
    apply filter_In in He as [He Hq].
    unfold old_qualifies in Hq. rewrite andb_true_iff in Hq.
    apply (readable_rounded_from walk e); tauto.
  - rewrite scan_duplicates_eq. simpl. rewrite in_flat_map.
    intros [size [Hsize Hfd]]. unfold dup_group in Hfd.
    apply in_map_iff in Hfd as [e [<- He]].
    pose proof (dup_reported_sizes walk size) as Hall.
    rewrite Forall_forall in Hall.
    pose proof (Hall e ltac:(by apply list_elem_of_In)) as Hsz.
    unfold dup_reported in He.
    destruct (size =? 0)%N; [done|].
    destruct (length (members walk size) <? 2)%nat; [done|].
    apply tail_In, members_In in He as (He & Hr & _).
    apply (readable_rounded_from walk e); [done..|]. simpl. by rewrite Hsz.
  - exact round_mb_nearest.
Qed.

Lemma size_mb_is_rounded_raw_size_witness :
  rounded_from three_same_size
    (mkFinding "sub/c.dat" 0%N reason_of_three).
Proof.
  pose proof (size_mb_is_rounded_raw_size three_same_size
                (mkFinding "sub/c.dat" 0%N reason_of_three)) as H.
  destruct H as (_ & _ & _ & H & _).
  apply H. vm_compute. auto.
Defined.

(** ** The files behind the Findings *)

Lemma filter_submseteq {A : Type} (f : A -> bool) (l : list A) :
  List.filter f l ⊆+ l.
Proof.
  induction l as [|x l IH]; simpl; [done|].
  destruct (f x); [by apply submseteq_skip|by apply submseteq_cons].
Qed.

Lemma filter_none {A : Type} (f : A -> bool) (l : list A) :
  (forall x, f x = false) -> List.filter f l = [].
Proof.
  intros H. induction l as [|x l IH]; simpl; [done|]. by rewrite H.
Qed.

Lemma members_split walk s ss :
  ~ In s ss ->
  List.filter (fun e => readable e && N_mem (raw_size e) (s :: ss)) walk
  ≡ₚ members walk s
     ++ List.filter (fun e => readable e && N_mem (raw_size e) ss) walk.
Proof.
  intros Hs. unfold members.
  induction walk as [|e walk IH]; simpl; [done|].
  destruct (readable e) eqn:Hr; simpl; [|done].
  destruct (N.eq_dec (raw_size e) s) as [Heq|Hne].
  - rewrite Heq, N.eqb_refl. simpl.
    assert (N_mem s ss = false) as ->.
    { apply not_true_is_false. by rewrite N_mem_In. }
    by rewrite IH.
  - rewrite (proj2 (N.eqb_neq _ _) Hne). simpl.
    destruct (N_mem (raw_size e) ss); [|done].
    rewrite IH. apply Permutation_middle.
Qed.

Lemma members_partition walk ss :
  List.NoDup ss ->
  flat_map (members walk) ss
  ≡ₚ List.filter (fun e => readable e && N_mem (raw_size e) ss) walk.
Proof.
  induction 1 as [|s ss Hs Hnd IH]; cbn [flat_map].
  - rewrite filter_none; [done|]. intros e. apply andb_false_r.
  - rewrite members_split by done. by rewrite IH.
Qed.

Lemma flat_map_submseteq {A B : Type} (f g : A -> list B) (l : list A) :
  (forall x, f x ⊆+ g x) -> flat_map f l ⊆+ flat_map g l.
Proof.
  intros H. induction l as [|x l IH]; simpl; [done|].
  by apply submseteq_app.
Qed.

Lemma dup_reported_members walk size :
  dup_reported walk size ⊆+ members walk size.
Proof.
  unfold dup_reported.
  destruct (size =? 0)%N; [apply submseteq_nil_l|].
  destruct (length (members walk size) <? 2)%nat; [apply submseteq_nil_l|].
  destruct (members walk size) as [|a g]; simpl; [done|].
  by apply submseteq_cons.
Qed.

Lemma sum_sizes_perm l1 l2 : l1 ≡ₚ l2 -> sum_sizes l1 = sum_sizes l2.
Proof.
  induction 1 as [|x l1 l2 H IH|x y l|l1 l2 l3 H1 IH1 H2 IH2]; simpl;
    [done|by rewrite IH|lia|congruence].
Qed.

Lemma old_findings_keys clock k quals :
  map finding_key (old_findings clock k quals) = map entry_key quals.
Proof.
  revert k. induction quals as [|e quals IH]; intros k; simpl; [done|].
  by rewrite IH.
Qed.

Lemma dup_group_keys walk size :
  map finding_key (dup_group walk size)
  = map entry_key (dup_reported walk size).
Proof.
  unfold dup_group. rewrite map_map. apply map_ext_in. intros e He.
  pose proof (dup_reported_sizes walk size) as Hall.
  rewrite Forall_forall in Hall.
  apply list_elem_of_In in He. unfold entry_key.
  by rewrite (Hall e He).
Qed.

Lemma accounts_large walk m E :
  accounts_for walk (_scan_large_files walk m E)
    (List.filter (large_qualifies (mul_mib m) E) walk).
Proof.
  rewrite scan_large_files_eq. unfold accounts_for. simpl.
  split; [apply filter_submseteq|]. split; [|split; [|done]].
  - rewrite Forall_forall. intros e He.
    apply list_elem_of_In, filter_In in He as [_ Hq].
    unfold large_qualifies in Hq. rewrite !andb_true_iff in Hq. tauto.
  - rewrite sort_desc_perm. by rewrite map_map.
Qed.

Lemma accounts_temp walk :
  accounts_for walk (_scan_temp_files walk)
    (List.filter temp_qualifies walk).
Proof.
  rewrite scan_temp_files_eq. unfold accounts_for. simpl.
  split; [apply filter_submseteq|]. split; [|split; [|done]].
  - rewrite Forall_forall. intros e He.
    apply list_elem_of_In, filter_In in He as [_ Hq].
    unfold temp_qualifies in Hq. rewrite andb_true_iff in Hq. tauto.
  - by rewrite map_map.
Qed.

Lemma accounts_old clock walk days k :
  accounts_for walk (fst (_scan_old_files clock walk days k))
    (List.filter
       (old_qualifies (clock k - inject_Z (days * 24 * 60 * 60))%Q) walk).
Proof.
  rewrite scan_old_files_eq. unfold accounts_for. simpl.
  split; [apply filter_submseteq|]. split; [|split; [|done]].
  - rewrite Forall_forall. intros e He.
    apply list_elem_of_In, filter_In in He as [_ Hq].
    unfold old_qualifies in Hq. rewrite andb_true_iff in Hq. tauto.
  - by rewrite old_findings_keys.
Qed.

Lemma accounts_dup walk :
  accounts_for walk (_scan_duplicates walk)
    (flat_map (dup_reported walk) (sizes_seen walk)).
Proof.
  rewrite scan_duplicates_eq. unfold accounts_for. simpl.
  split; [|split; [|split; [|done]]].
  - etrans; [apply flat_map_submseteq, dup_reported_members|].
    rewrite members_partition by apply sizes_seen_NoDup.
    apply filter_submseteq.
  - rewrite Forall_forall. intros e He.
    apply list_elem_of_In, in_flat_map in He as [size [_ He]].
    pose proof (dup_reported_members walk size) as Hsub.
    apply list_elem_of_In in He.
    apply (elem_of_submseteq _ _ _ He), list_elem_of_In in Hsub.
    apply members_In in Hsub. tauto.
  - induction (sizes_seen walk) as [|s ss IH]; simpl; [done|].
    by rewrite !map_app, dup_group_keys, IH.
Qed.

(** ** The report *)

Lemma is_str_true v s : is_str v s = true <-> v = VStr s.
Proof.
  destruct v; simpl; try (split; [discriminate|by inversion 1]).
  rewrite String.eqb_eq. split; [by intros ->|by inversion 1].
Qed.

Lemma try_scan_report W path m exts scan_type r :
  try_scan W path m exts scan_type = Report r ->
  exists scan_path ext_list res,
    _resolve_scan_path W path = Returned scan_path
    /\ path_exists W scan_path = true
    /\ path_is_dir W scan_path = true
    /\ normalize_extensions exts = Returned ext_list
    /\ classifier_output W scan_path m ext_list scan_type res
    /\ (exists st, scan_type = VStr st /\ r = make_report st scan_path res).
Proof.
  unfold try_scan, scan_body, classifier_output.
  destruct (_resolve_scan_path W path) as [sp|ex]; [|done].
  cbn [obind].
  destruct (path_exists W sp) eqn:Hex; [|done].
  destruct (path_is_dir W sp) eqn:Hdir; [|done].
  destruct (normalize_extensions exts) as [el|ex]; [|done].
  cbn [obind negb].
  destruct (is_str scan_type "large_files") eqn:H1.
  { apply is_str_true in H1. intros [= <-].
    exists sp, el, (_scan_large_files (rglob W sp) m el).
    do 4 (split; [first [assumption|reflexivity]|]).
    split; [left; by split|by eexists]. }
  destruct (is_str scan_type "temp_files") eqn:H2.
  { apply is_str_true in H2. intros [= <-].
    exists sp, el, (_scan_temp_files (rglob W sp)).
    do 4 (split; [first [assumption|reflexivity]|]).
    split; [right; left; by split|by eexists]. }
  destruct (is_str scan_type "old_files") eqn:H3.
  { apply is_str_true in H3. intros [= <-].
    exists sp, el, (fst (_scan_old_files (clock W) (rglob W sp) 180 0%nat)).
    do 4 (split; [first [assumption|reflexivity]|]).
    split; [right; right; left; by split|by eexists]. }
  destruct (is_str scan_type "duplicates") eqn:H4; [|done].
  apply is_str_true in H4. intros [= <-].
  exists sp, el, (_scan_duplicates (rglob W sp)).
  do 4 (split; [first [assumption|reflexivity]|]).
  split; [right; right; right; by split|by eexists].
Qed.

Lemma classifier_accounts W scan_path m ext_list scan_type res :
  classifier_output W scan_path m ext_list scan_type res ->
  exists quals, accounts_for (rglob W scan_path) res quals.
Proof.
  intros [[_ ->]|[[_ ->]|[[_ ->]|[_ ->]]]]; eexists.
  - apply accounts_large.
  - apply accounts_temp.
  - apply accounts_old.
  - apply accounts_dup.
Qed.

Lemma note_of_limited results :
  note_of results = "Limited to first 20 files" <-> (20 < length results)%nat.
Proof.
  unfold note_of. destruct (20 <? length results)%nat eqn:H.
  - apply Nat.ltb_lt in H. tauto.
  - apply Nat.ltb_ge in H. split; [discriminate|lia].
Qed.

Lemma note_of_all results :
  note_of results = "All files shown" <-> (length results <= 20)%nat.
Proof.
  unfold note_of. destruct (20 <? length results)%nat eqn:H.
  - apply Nat.ltb_lt in H. split; [discriminate|lia].
  - apply Nat.ltb_ge in H. tauto.
Qed.

(** ** Stale files: cutoff, age and the 180 days of [use] *)

(** The report of a stale-file scan: [use] calls [_scan_old_files] with
    [days=180] and passes nothing else of its parameters. *)
Lemma old_files_report W path m x r :
  try_scan W path m x (VStr "old_files") = Report r ->
  exists scan_path,
    _resolve_scan_path W path = Returned scan_path
    /\ r = make_report "old_files" scan_path
             (fst (_scan_old_files (clock W) (rglob W scan_path)
                                   180 0%nat)).
Proof.
  intros Hr.
  apply try_scan_report in Hr
    as (sp & el & res & Hres & _ & _ & _ & Hout & st & Hst & ->).
  injection Hst as <-. exists sp. split; [done|].
  by destruct Hout as [[[=] _]|[[[=] _]|[[_ ->]|[[=] _]]]].
Qed.

Lemma int_of_float_trunc (q : Q) :
  int_of_float q = if Qle_bool 0 q then Qfloor q else Qceiling q.
Proof.
  destruct q as [n d]. unfold int_of_float, Qceiling, Qfloor, Qle_bool.
  simpl. rewrite ?Z.mul_1_r. change (0 * Z.pos d)%Z with 0%Z.
  destruct (0 <=? n)%Z eqn:Hn.
  - apply Z.leb_le in Hn. apply Z.quot_div_nonneg; lia.
  - apply Z.leb_gt in Hn.
    rewrite <- (Z.opp_involutive n) at 1. rewrite Z.quot_opp_l by lia.
    f_equal. apply Z.quot_div_nonneg; lia.
Qed.

(** C5.  Stale-File mode reads the clock once at the start and fixes the
    cutoff [now - days * 86400]; a readable regular file is reported
    exactly when its modification time is strictly below that cutoff; the
    Findings are in walk order, and the reason of each is
    "Not modified in N days" with N the truncation of
    [(time at evaluation - modification time) / 86400], the time at
    evaluation being a fresh reading of the clock, one per reported file.
    With 180 days, a file modified 200 days before the start is reported
    and a file modified 10 days before is not; and 180 days is what
    [use] always runs the stale-file scan with. *)
Theorem old_files_spec (clk : nat -> Q) (walk : list Entry) (days : Z)
    (k : nat) :
  let cutoff := (clk k - inject_Z (days * 86400))%Q in
  let quals := List.filter (old_qualifies cutoff) walk in
  let results := fst (fst (_scan_old_files clk walk days k)) in
  (forall e, In e quals <->
     In e walk /\ is_file e = true /\
     exists s, stat e = Some s /\
       (st_mtime s < clk k - inject_Z (days * 86400))%Q)
  /\ length results = length quals
  /\ (forall i e, quals !! i = Some e ->
        results !! i
        = Some (mkFinding (rel_path e) (round_mb (raw_size e))
                  ("Not modified in "
                   +:+ pretty (int_of_float
                                 ((clk (S k + i)%nat - mtime_of e) / 86400))
                   +:+ " days")))
  /\ snd (_scan_old_files clk walk days k) = (S k + length quals)%nat
  /\ snd (fst (_scan_old_files clk walk days k)) = sum_sizes quals
  /\ (forall q, int_of_float q = if Qle_bool 0 q then Qfloor q else Qceiling q)
  /\ (forall e s, is_file e = true -> stat e = Some s ->
        (st_mtime s == clk k - 200 * day)%Q ->
        fst (fst (_scan_old_files clk [e] 180 k))
        = [old_finding (clk (S k)) e])
  /\ (forall e s, is_file e = true -> stat e = Some s ->
        (st_mtime s == clk k - 10 * day)%Q ->
        fst (fst (_scan_old_files clk [e] 180 k)) = [])
  /\ (forall W path m x r,
        try_scan W path m x (VStr "old_files") = Report r ->
        exists scan_path,
          _resolve_scan_path W path = Returned scan_path
          /\ r = make_report "old_files" scan_path
                   (fst (_scan_old_files (clock W) (rglob W scan_path)
                                         180 0%nat))).
Proof.
  intros cutoff quals results.
  pose proof (scan_old_files_eq clk walk days k) as Heq. simpl in Heq.
  replace (days * 24 * 60 * 60)%Z with (days * 86400)%Z in Heq by lia.
  fold cutoff in Heq. fold quals in Heq.
  split.
  { intros e. unfold quals. rewrite filter_In, old_qualifies_iff. tauto. }
  split; [unfold results; rewrite Heq; apply old_findings_length|].
  split.
  { intros i e Hi. unfold results. rewrite Heq. simpl.
    by rewrite (old_findings_lookup clk (S k) quals i e Hi). }
  split; [by rewrite Heq|].
  split; [by rewrite Heq|].
  split; [apply int_of_float_trunc|].
  split; [|split; [|exact old_files_report]].
  - intros e s Hf Hs Hm.
    pose proof (scan_old_files_eq clk [e] 180 k) as H1. simpl in H1.
    rewrite H1. simpl.
    assert (old_qualifies (clk k - inject_Z (180 * 24 * 60 * 60)) e = true)
      as ->; [|done].
    apply old_qualifies_iff. split; [done|]. exists s. split; [done|].
    change (inject_Z (180 * 24 * 60 * 60)) with (15552000 # 1).
    unfold day in Hm. rewrite Hm. lra.
  - intros e s Hf Hs Hm.
    pose proof (scan_old_files_eq clk [e] 180 k) as H1. simpl in H1.
    rewrite H1. simpl.
    assert (old_qualifies (clk k - inject_Z (180 * 24 * 60 * 60)) e = false)
      as ->; [|done].
    apply not_true_is_false. rewrite old_qualifies_iff.
    intros [_ [s' [Hs' Hlt]]]. rewrite Hs in Hs'. injection Hs' as <-.
    change (inject_Z (180 * 24 * 60 * 60)) with (15552000 # 1) in Hlt.
    unfold day in Hm. rewrite Hm in Hlt. lra.
Qed.

Lemma old_files_spec_witness :
  fst (fst (_scan_old_files sample_clock [stale200] 180 0%nat))
  = [mkFinding "old.doc" 0%N "Not modified in 200 days"].
Proof.
  pose proof (old_files_spec sample_clock [] 180 0%nat) as H.
  destruct H as (_ & _ & _ & _ & _ & _ & H & _).
  rewrite (H stale200 (mkStat 2048 2720000)); reflexivity.
Defined.

Section UseProperties.

Variable float_of_str : string -> option pyfloat.
Variable json_loads : string -> option pyval.
Variable re_has_win_drive : string -> bool.
Variable re_escape_path : string -> string.
Variable re_path_value : string -> option string.

Local Abbreviation tool_use :=
  (use float_of_str json_loads re_has_win_drive re_escape_path
       re_path_value).
Local Abbreviation tool_parse :=
  (parse_input float_of_str json_loads re_has_win_drive re_escape_path
               re_path_value).

(** C3.  Whenever [use] returns a report, in any of the four modes,
    the report is built from the whole output of the classifier that
    was run: [files] is the first 20 Findings of its ordered sequence,
    [files_found] is the number of all Findings, which is the number
    of qualifying files, [total_size_mb] is the sum of the raw byte
    sizes of all qualifying files rounded once, and the note says
    "Limited to first 20 files" exactly when there are more than 20
    Findings. *)
Theorem report_aggregation (W : World) (args : list pyval)
    (kwargs : pydict) (r : ScanReport) :
  tool_use W args kwargs = Returned (Report r) ->
  exists (p : Params) (scan_path : string) (ext_list : list string)
         (res : list Finding * N) (quals : list Entry),
    tool_parse args kwargs = Returned p
    /\ _resolve_scan_path W (p_path p) = Returned scan_path
    /\ normalize_extensions (p_extensions p) = Returned ext_list
    /\ classifier_output W scan_path (p_min_size_mb p) ext_list
                         (p_scan_type p) res
    /\ accounts_for (rglob W scan_path) res quals
    /\ r_files r = take 20 (fst res)
    /\ r_files_found r = length (fst res)
    /\ r_files_found r = length quals
    /\ r_total_size_mb r = round_mb (sum_sizes quals)
    /\ (r_note r = "Limited to first 20 files"
        <-> (20 < length (fst res))%nat)
    /\ (r_note r = "All files shown" <-> (length (fst res) <= 20)%nat).
Proof.
  unfold use. destruct (tool_parse args kwargs) as [p|ex]; [|done].
  cbn [obind]. intros [= Hr].
  apply try_scan_report in Hr
    as (sp & el & res & Hres & _ & _ & Hnorm & Hout & st & _ & ->).
  destruct (classifier_accounts _ _ _ _ _ _ Hout) as [quals Hacc].
  exists p, sp, el, res, quals.
  destruct Hacc as (Hsub & Hread & Hperm & Hsum).
  assert (Hlen : length (fst res) = length quals).
  { apply Permutation_length in Hperm. by rewrite !length_map in Hperm. }
  destruct res as [results total]. simpl in *.
  repeat split; try done; try (by subst);
    try apply note_of_limited; try apply note_of_all.
Qed.

End UseProperties.

Lemma report_aggregation_witness :
  exists quals : list Entry,
    quals ⊆+ many_caches
    /\ r_files_found sample_report = length quals
    /\ r_total_size_mb sample_report = round_mb (sum_sizes quals).
Proof.
  destruct (report_aggregation no_float no_json no_match no_sub no_group
              (sample_world many_caches) []
              [("path", VStr "/work"); ("scan_type", VStr "temp_files")]
              sample_report)
    as (p & sp & el & res & quals & _ & _ & _ & _ & Hacc & _ & _ & Hn & Ht & _).
  - reflexivity.
  - exists quals. destruct Hacc as [Hsub _]. auto.
Defined.

(** ** Temporary files: the tilde entry *)

Lemma rfind_from_drop c s k j :
  PyStr.rfind_from c s k = Some j ->
  exists i rest, j = (k + i)%nat /\ PyStr.drop i s = String c rest.
Proof.
  revert k j. induction s as [|a s IH]; intros k j; simpl; [done|].
  destruct (PyStr.rfind_from c s (S k)) as [j'|] eqn:H.
  - intros [= <-]. destruct (IH _ _ H) as (i & rest & -> & Hd).
    exists (S i), rest. split; [lia|done].
  - destruct (Ascii.eqb a c) eqn:Heq; [|done].
    intros [= <-]. apply Ascii.eqb_eq in Heq. subst a.
    exists 0%nat, s. split; [lia|done].
Qed.

Lemma suffix_dot_or_empty nm :
  PyStr.suffix nm = EmptyString
  \/ exists rest, PyStr.suffix nm = String "." rest.
Proof.
  unfold PyStr.suffix, PyStr.rfind.
  destruct (PyStr.rfind_from "." nm 0) as [j|] eqn:H; [|by left].
  destruct ((0 <? j)%nat && (j <? String.length nm - 1)%nat); [|by left].
  apply rfind_from_drop in H as (i & rest & -> & Hd).
  right. exists rest. by rewrite Nat.add_0_l.
Qed.

Lemma suffix_lower_never_tilde nm : PyStr.lower (PyStr.suffix nm) <> "~".
Proof.
  destruct (suffix_dot_or_empty nm) as [->|[rest ->]]; simpl; [done|].
  by vm_compute (PyStr.lower_char ".").
Qed.

Lemma is_temp_without_tilde e :
  is_temp e
  = PyStr.mem (suffix_lower e) [".tmp"; ".temp"; ".cache"; ".log"; ".bak"]
    || existsb (fun pattern => PyStr.contains pattern (PyStr.lower (name e)))
               temp_patterns.
Proof.
  unfold is_temp. f_equal. unfold temp_extensions, PyStr.mem.
  change [".tmp"; ".temp"; ".cache"; ".log"; ".bak"; "~"]
    with ([".tmp"; ".temp"; ".cache"; ".log"; ".bak"] ++ ["~"]).
  rewrite existsb_app. simpl (existsb _ ["~"]).
  assert (String.eqb (suffix_lower e) "~" = false) as ->.
  { apply String.eqb_neq, suffix_lower_never_tilde. }
  by rewrite !orb_false_r.
Qed.

(** C4, as the code behaves.  The tilde entry of [temp_extensions] never
    matches, because a [suffix] is empty or starts with a dot: a file is
    temporary exactly when its lower-cased extension is one of the five
    dotted ones or its lower-cased name contains one of the patterns.
    The backup file [notes.txt~], temporary by the specification's
    wording, is not reported. *)
Theorem temp_trailing_tilde_not_flagged :
  (forall nm, PyStr.lower (PyStr.suffix nm) <> "~")
  /\ (forall e,
        is_temp e
        = PyStr.mem (suffix_lower e)
                    [".tmp"; ".temp"; ".cache"; ".log"; ".bak"]
          || existsb (fun pattern =>
                        PyStr.contains pattern (PyStr.lower (name e)))
                     temp_patterns)
  /\ temp_by_spec (name tilde_backup) = true
  /\ readable tilde_backup = true
  /\ is_temp tilde_backup = false
  /\ _scan_temp_files [tilde_backup] = ([], 0%N).
Proof.
  split; [exact suffix_lower_never_tilde|].
  split; [exact is_temp_without_tilde|].
  by vm_compute.
Qed.

(** ** The extension filter *)

Lemma ext_loop toks acc :
  fold_left ext_step toks acc = acc ++ flat_map norm_token toks.
Proof.
  revert acc. induction toks as [|tok toks IH]; intros acc; simpl.
  - by rewrite app_nil_r.
  - rewrite IH. unfold ext_step, norm_token.
    destruct (String.eqb (PyStr.lower (PyStr.strip tok)) EmptyString).
    + done.
    + by rewrite <- app_assoc.
Qed.

Lemma normalize_extensions_str s :
  normalize_extensions (VStr s) = Returned (norm_spec s).
Proof.
  unfold normalize_extensions, norm_spec. simpl.
  destruct (String.eqb s EmptyString) eqn:Hs; simpl.
  - apply String.eqb_eq in Hs. by subst s.
  - by rewrite ext_loop.
Qed.

Lemma lower_char_idem c :
  PyStr.lower_char (PyStr.lower_char c) = PyStr.lower_char c.
Proof. by destruct c as [[] [] [] [] [] [] [] []]. Qed.

Lemma lower_idem s : PyStr.lower (PyStr.lower s) = PyStr.lower s.
Proof.
  induction s as [|c s IH]; simpl; [done|]. by rewrite lower_char_idem, IH.
Qed.

Lemma norm_token_shape tok x :
  In x (norm_token tok) ->
  x <> EmptyString /\ PyStr.startswith "." x = true /\ PyStr.lower x = x.
Proof.
  unfold norm_token.
  destruct (String.eqb (PyStr.lower (PyStr.strip tok)) EmptyString) eqn:He;
    [done|].
  apply String.eqb_neq in He.
  destruct (PyStr.startswith "." (PyStr.lower (PyStr.strip tok))) eqn:Hd.
  - intros [<-|[]]. by rewrite lower_idem.
  - intros [<-|[]]. simpl. split; [done|]. split.
    + unfold PyStr.startswith. simpl.
      destruct (ascii_dec "." ".") as [_|Hne]; [|done].
      by destruct (PyStr.lower (PyStr.strip tok)).
    + f_equal. apply lower_idem.
Qed.

Lemma zero_valid_norm s : zero_valid_entries s -> norm_spec s = [].
Proof.
  intros [_ Hall]. unfold norm_spec. apply flat_map_all_nil.
  intros tok Htok. rewrite Forall_forall in Hall.
  unfold norm_token. rewrite (Hall tok) by (by apply list_elem_of_In).
  done.
Qed.

Lemma try_scan_same_extensions W path m x1 x2 scan_type :
  normalize_extensions x1 = normalize_extensions x2 ->
  try_scan W path m x1 scan_type = try_scan W path m x2 scan_type.
Proof. intros H. unfold try_scan, scan_body. by rewrite H. Qed.

(** C7, the claim as the specification states it, refuted: the string
    of a blank and a comma and a blank is a supplied restriction list
    with zero valid entries, and it is normalised to the very list the
    absent filter gives, so that the scan with it reports the txt file
    exactly as the unrestricted scan does. *)
Lemma blank_extension_list_not_distinguished :
  zero_valid_entries " , "
  /\ normalize_extensions (VStr " , ") = Returned []
  /\ normalize_extensions (VStr EmptyString) = Returned []
  /\ try_scan (sample_world [zip60; txt60; zip10]) (VStr "/work") (Finite 50)
              (VStr " , ") (VStr "large_files")
     = try_scan (sample_world [zip60; txt60; zip10]) (VStr "/work")
                (Finite 50) (VStr EmptyString) (VStr "large_files")
  /\ try_scan (sample_world [zip60; txt60; zip10]) (VStr "/work") (Finite 50)
              (VStr " , ") (VStr "large_files")
     = Report (mkReport "large_files" "/work" 2 12000%N
                 [mkFinding "backup.zip" 6000%N "Large file";
                  mkFinding "notes.txt" 6000%N "Large file"]
                 "All files shown").
Proof.
  split.
  { split; [discriminate|]. by repeat constructor. }
  by vm_compute.
Qed.

(** C7, amended.  The extensions string is split on commas; each token
    is stripped of surrounding whitespace and lower-cased, empty tokens
    are dropped, and a dot is put in front of a token that does not
    start with one, so that every entry of the result is non-empty,
    lower-case and dot-prefixed.  An empty result means no restriction:
    the extension test then passes every file.  A supplied string with
    zero valid entries gives the same empty result and the same scan as
    no extensions at all; the two are not distinguished. *)
Theorem extensions_normalization (s : string) :
  normalize_extensions (VStr s)
  = Returned (flat_map norm_token (PyStr.split "," s))
  /\ (forall tok,
        norm_token tok
        = let e := PyStr.lower (PyStr.strip tok) in
          if String.eqb e EmptyString then []
          else [if PyStr.startswith "." e then e else "." +:+ e])
  /\ (forall x, In x (norm_spec s) ->
        x <> EmptyString /\ PyStr.startswith "." x = true
        /\ PyStr.lower x = x)
  /\ (forall mb e,
        large_qualifies mb [] e = readable e && int_ge_float (raw_size e) mb)
  /\ (zero_valid_entries s ->
      normalize_extensions (VStr s) = Returned []
      /\ normalize_extensions (VStr s) = normalize_extensions (VStr EmptyString)
      /\ forall W path m scan_type,
           try_scan W path m (VStr s) scan_type
           = try_scan W path m (VStr EmptyString) scan_type).
Proof.
  split; [apply normalize_extensions_str|].
  split; [done|].
  split.
  { intros x Hx. unfold norm_spec in Hx.
    apply in_flat_map in Hx as [tok [_ Hx]]. by apply (norm_token_shape tok). }
  split.
  { intros mb e. unfold large_qualifies. simpl. by rewrite andb_true_r. }
  intros Hz.
  assert (H : normalize_extensions (VStr s) = Returned []).
  { by rewrite normalize_extensions_str, zero_valid_norm. }
  split; [done|]. split; [by rewrite H|].
  intros W path m scan_type. apply try_scan_same_extensions. by rewrite H.
Qed.

Lemma extensions_normalization_witness :
  normalize_extensions (VStr ",,") = normalize_extensions (VStr EmptyString).
Proof.
  destruct (extensions_normalization ",,") as (_ & _ & _ & _ & H).
  apply H. split; [discriminate|]. repeat constructor.
Defined.

(** ** Exceptions that reach the caller, and the stale-file parameters *)

Section CallerProperties.

Variable float_of_str : string -> option pyfloat.
Variable json_loads : string -> option pyval.
Variable re_has_win_drive : string -> bool.
Variable re_escape_path : string -> string.
Variable re_path_value : string -> option string.

Local Abbreviation tool_use :=
  (use float_of_str json_loads re_has_win_drive re_escape_path
       re_path_value).

(** C6, as the code behaves.  The conversion [float(...)] of the
    [min_size_mb] argument runs before the [try] block of [use]: a value
    that is no number makes [use] raise instead of returning an error
    value, for keyword arguments and for a JSON string alike. *)
Theorem use_raises_on_malformed_min_size (W : World) :
  tool_use W [] [("path", VStr "."); ("min_size_mb", VNone)]
  = Raised TypeError
  /\ (forall s d,
        json_loads s = Some (VDict d) ->
        dict_get d "min_size_mb" (VFloat (Finite 10)) = VNone ->
        tool_use W [VStr s] [] = Raised TypeError)
  /\ (forall s d t,
        json_loads s = Some (VDict d) ->
        dict_get d "min_size_mb" (VFloat (Finite 10)) = VStr t ->
        float_of_str t = None ->
        tool_use W [VStr s] [] = Raised ValueError)
  /\ (forall d t,
        dict_get d "min_size_mb" (VFloat (Finite 10)) = VStr t ->
        float_of_str t = None ->
        d <> [] ->
        tool_use W [] d = Raised ValueError).
Proof.
  split; [done|]. split; [|split].
  - intros s d Hj Hd. unfold use, parse_input,
      _try_parse_json_with_backslash_fix, params_of_dict.
    rewrite Hj. simpl. by rewrite Hd.
  - intros s d t Hj Hd Hf. unfold use, parse_input,
      _try_parse_json_with_backslash_fix, params_of_dict.
    rewrite Hj. simpl. rewrite Hd. simpl. by rewrite Hf.
  - intros d t Hd Hf Hne. unfold use, parse_input, params_of_dict.
    destruct d as [|kv d']; [done|]. rewrite Hd. simpl. by rewrite Hf.
Qed.

(** C10.  In stale-file mode the cutoff is always 180 days and neither
    [min_size_mb] nor [extensions] is passed on: on one machine, at one
    time, for one path, the result of [use] is the same whatever number
    [min_size_mb] is and whatever string [extensions] is, and any two
    calls that return a report return the same report, built from the
    stale-file scan with 180 days. *)
Theorem old_files_ignore_size_and_extensions (W : World) (path : pyval) :
  (forall m1 m2 e1 e2,
     try_scan W path m1 (VStr e1) (VStr "old_files")
     = try_scan W path m2 (VStr e2) (VStr "old_files"))
  /\ (forall (m1 m2 : pyfloat) (e1 e2 : string),
        tool_use W []
          [("path", path); ("min_size_mb", VFloat m1);
           ("extensions", VStr e1); ("scan_type", VStr "old_files")]
        = tool_use W []
            [("path", path); ("min_size_mb", VFloat m2);
             ("extensions", VStr e2); ("scan_type", VStr "old_files")])
  /\ (forall m x r,
        try_scan W path m x (VStr "old_files") = Report r ->
        exists scan_path,
          _resolve_scan_path W path = Returned scan_path
          /\ r = make_report "old_files" scan_path
                   (fst (_scan_old_files (clock W) (rglob W scan_path)
                                         180 0%nat)))
  /\ (forall m1 m2 x1 x2 r1 r2,
        try_scan W path m1 x1 (VStr "old_files") = Report r1 ->
        try_scan W path m2 x2 (VStr "old_files") = Report r2 ->
        r1 = r2).
Proof.
  assert (Htyped : forall m1 m2 e1 e2,
            try_scan W path m1 (VStr e1) (VStr "old_files")
            = try_scan W path m2 (VStr e2) (VStr "old_files")).
  { intros m1 m2 e1 e2. unfold try_scan, scan_body.
    rewrite !normalize_extensions_str.
    destruct (_resolve_scan_path W path) as [sp|ex]; [|done].
    cbn [obind].
    destruct (negb (path_exists W sp)); [done|].
    by destruct (negb (path_is_dir W sp)). }
  pose proof (old_files_report W path) as Hrep.
  split; [exact Htyped|]. split; [|split; [exact Hrep|]].
  - intros m1 m2 e1 e2. unfold use. simpl. f_equal. apply Htyped.
  - intros m1 m2 x1 x2 r1 r2 H1 H2.
    apply Hrep in H1 as (sp1 & Hs1 & ->).
    apply Hrep in H2 as (sp2 & Hs2 & ->).
    rewrite Hs1 in Hs2. by injection Hs2 as <-.
Qed.

End CallerProperties.

Lemma use_raises_on_malformed_min_size_witness :
  use no_float json_always_ten no_match no_sub no_group (sample_world [])
      [VStr "{...}"] []
  = Raised ValueError.
Proof.
  destruct (use_raises_on_malformed_min_size no_float json_always_ten
              no_match no_sub no_group (sample_world []))
    as (_ & _ & H & _).
  apply (H "{...}" [("path", VStr "/work"); ("min_size_mb", VStr "ten")]
           "ten"); reflexivity.
Defined.

Lemma old_files_ignore_size_and_extensions_witness :
  make_report "old_files" "/work"
    (fst (_scan_old_files sample_clock [stale200; zip60] 180 0%nat))
  = mkReport "old_files" "/work" 2 6000%N
      [mkFinding "old.doc" 0%N "Not modified in 200 days";
       mkFinding "backup.zip" 6000%N "Not modified in 231 days"]
      "All files shown".
Proof.
  destruct (old_files_ignore_size_and_extensions no_float no_json no_match
              no_sub no_group (sample_world [stale200; zip60])
              (VStr "/work"))
    as (_ & _ & _ & H).
  apply (H (Finite 10) (Finite 500) (VStr ".zip") VNone); reflexivity.
Defined.

(* ================================================================== *)
(** * Further properties of the code *)
(* ================================================================== *)

(** ** [_resolve_scan_path] *)

Lemma resolve_alias_eq W raw :
  raw <> EmptyString -> is_alias raw = true ->
  _resolve_scan_path W (VStr raw)
  = Returned (default (joinpath W (home W) "Downloads")
                      (find (usable_dir W) (download_candidates W))).
Proof.
  intros Hne Ha. unfold _resolve_scan_path, truthy.
  rewrite (proj2 (String.eqb_neq _ _) Hne). cbn [negb].
  unfold is_alias, download_aliases in Ha. rewrite Ha.
  fold (download_candidates W).
  change (fun c => path_exists W c && path_is_dir W c) with (usable_dir W).
  by destruct (find (usable_dir W) (download_candidates W)).
Qed.



Lemma find_first {A : Type} (f : A -> bool) (l : list A) :
  match find f l with
  | Some x => exists l1 l2, l = l1 ++ x :: l2 /\ f x = true
                            /\ Forall (fun y => f y = false) l1
  | None => Forall (fun y => f y = false) l
  end.
Proof.
  induction l as [|a l IH]; simpl; [constructor|].
  destruct (f a) eqn:Ha.
  - exists [], l. by repeat split.
  - destruct (find f l) as [x|].
    + destruct IH as (l1 & l2 & -> & Hx & Hl1).
      exists (a :: l1), l2. repeat split; [done|]. by constructor.
    + by constructor.
Qed.

(** X2.  What an alias resolves to, when it resolves: where
    [Path.home()] and the [exists()] and [is_dir()] of the candidates
    return and the function returns the folder [c], that folder is the
    first candidate, in the order of the list, that exists and is a
    directory, or, when no candidate is one, the expected location
    [home / Downloads], existing or not.  Nothing is said of a run in
    which one of these calls raises. *)
Theorem resolve_alias_result (W : World) (raw c : string) :
  raw <> EmptyString -> is_alias raw = true ->
  _resolve_scan_path W (VStr raw) = Returned c ->
  (exists before after,
     download_candidates W = before ++ c :: after
     /\ path_exists W c = true /\ path_is_dir W c = true
     /\ Forall (fun c' => usable_dir W c' = false) before)
  \/ (c = joinpath W (home W) "Downloads"
      /\ Forall (fun c' => usable_dir W c' = false)
                (download_candidates W)).
Proof.
  intros Hne Ha. rewrite (resolve_alias_eq W raw Hne Ha).
  pose proof (find_first (usable_dir W) (download_candidates W)) as Hf.
  destruct (find (usable_dir W) (download_candidates W)) as [c0|]; simpl;
    intros [= <-].
  - left. destruct Hf as (l1 & l2 & Heq & Hc & Hl1).
    unfold usable_dir in Hc. apply andb_true_iff in Hc as [Hex Hdir].
    by exists l1, l2.
  - by right.
Qed.

Lemma resolve_alias_result_witness :
  (exists before after,
     download_candidates (sample_world [])
     = before ++ "/home/u/Downloads" :: after
     /\ path_exists (sample_world []) "/home/u/Downloads" = true
     /\ path_is_dir (sample_world []) "/home/u/Downloads" = true
     /\ Forall (fun c' => usable_dir (sample_world []) c' = false) before)
  \/ ("/home/u/Downloads"
      = joinpath (sample_world []) (home (sample_world [])) "Downloads"
      /\ Forall (fun c' => usable_dir (sample_world []) c' = false)
                (download_candidates (sample_world []))).
Proof.
  apply (resolve_alias_result (sample_world []) "Download");
    [discriminate|reflexivity|reflexivity].
Defined.

(** ** The checks of [use] before the walk *)

(** X3.  A root that does not exist, or is no directory, ends the call
    at once with the error value that names the path as given and as
    resolved: the same value whatever the extensions (well-formed or
    not), the scan type (known or not), the minimum size and the file
    tree, which is never walked.  Off Windows the hint is the default
    one. *)
Theorem invalid_root_fails_fast (W : World) (path : pyval)
    (scan_path : string) :
  _resolve_scan_path W path = Returned scan_path ->
  usable_dir W scan_path = false ->
  exists err,
    (forall m exts scan_type walk,
       try_scan (with_walk W walk) path m exts scan_type = err)
    /\ ((path_exists W scan_path = false
         /\ exists hint, err = ErrNotExist path scan_path hint
                         /\ (os_nt W = false -> hint = default_hint))
        \/ (path_exists W scan_path = true
            /\ path_is_dir W scan_path = false
            /\ err = ErrNotDir path scan_path)).
Proof.
  intros Hres Hbad. unfold usable_dir in Hbad.
  destruct (path_exists W scan_path) eqn:Hex.
  - simpl in Hbad. exists (ErrNotDir path scan_path). split.
    + intros m exts scan_type walk. unfold try_scan, scan_body.
      rewrite resolve_with_walk, Hres.
      cbn [obind with_walk os_nt path_exists path_is_dir].
      by rewrite Hex, Hbad.
    + right. by repeat split.
  - eexists. split.
    + intros m exts scan_type walk. unfold try_scan, scan_body.
      rewrite resolve_with_walk, Hres.
      cbn [obind with_walk os_nt path_exists path_is_dir].
      rewrite Hex. cbn [negb]. reflexivity.
    + left. split; [done|]. eexists. split; [reflexivity|].
      by intros ->.
Qed.

Lemma invalid_root_fails_fast_witness :
  exists err,
    forall m exts scan_type walk,
      try_scan (with_walk nowhere_world walk) (VStr "/gone") m exts scan_type
      = err.
Proof.
  destruct (invalid_root_fails_fast nowhere_world (VStr "/gone") "/gone")
    as (err & H & _); [reflexivity|reflexivity|].
  by exists err.
Defined.

Lemma try_scan_valid W path m exts scan_type scan_path ext_list :
  _resolve_scan_path W path = Returned scan_path ->
  usable_dir W scan_path = true ->
  normalize_extensions exts = Returned ext_list ->
  try_scan W path m exts scan_type
  = let walk := rglob W scan_path in
    if is_str scan_type "large_files" then
      Report (make_report "large_files" scan_path
                (_scan_large_files walk m ext_list))
    else if is_str scan_type "temp_files" then
      Report (make_report "temp_files" scan_path (_scan_temp_files walk))
    else if is_str scan_type "old_files" then
      Report (make_report "old_files" scan_path
                (fst (_scan_old_files (clock W) walk 180 0%nat)))
    else if is_str scan_type "duplicates" then
      Report (make_report "duplicates" scan_path (_scan_duplicates walk))
    else ErrUnknownScanType scan_type.
Proof.
  intros Hres Hok Hnorm. unfold usable_dir in Hok.
  apply andb_true_iff in Hok as [Hex Hdir].
  unfold try_scan, scan_body. rewrite Hres. cbn [obind].
  rewrite Hex, Hdir, Hnorm. cbn [obind negb].
  by repeat destruct (is_str scan_type _).
Qed.

Lemma is_str_known_false scan_type :
  (forall s, In s known_scan_types -> scan_type <> VStr s) ->
  is_str scan_type "large_files" = false
  /\ is_str scan_type "temp_files" = false
  /\ is_str scan_type "old_files" = false
  /\ is_str scan_type "duplicates" = false.
Proof.
  intros H. repeat split; apply not_true_is_false; rewrite is_str_true;
    apply H; simpl; auto.
Qed.

(** X4.  With a valid root and a well-formed extensions value, the scan
    type decides the kind of result: one of the four known names, spelt
    exactly, gives a report that echoes the name and the resolved root;
    any other value, of any type, gives the unknown-scan-type error
    carrying that value, and never a report. *)
Theorem scan_type_dispatch (W : World) (path : pyval) (m : pyfloat)
    (exts scan_type : pyval) (scan_path : string) (ext_list : list string) :
  _resolve_scan_path W path = Returned scan_path ->
  usable_dir W scan_path = true ->
  normalize_extensions exts = Returned ext_list ->
  (forall s, In s known_scan_types -> scan_type = VStr s ->
     exists r, try_scan W path m exts scan_type = Report r
               /\ r_scan_type r = s /\ r_path r = scan_path)
  /\ ((forall s, In s known_scan_types -> scan_type <> VStr s) ->
      try_scan W path m exts scan_type = ErrUnknownScanType scan_type).
Proof.
  intros Hres Hok Hnorm.
  pose proof (try_scan_valid W path m exts scan_type scan_path ext_list
                Hres Hok Hnorm) as Hbody.
  split.
  - intros s Hs ->. rewrite Hbody. cbn zeta.
    unfold make_report.
    destruct Hs as [<-|[<-|[<-|[<-|[]]]]].
    + destruct (_scan_large_files _ _ _). eexists. by split.
    + change (is_str (VStr "temp_files") "large_files") with false.
      change (is_str (VStr "temp_files") "temp_files") with true.
      destruct (_scan_temp_files _). eexists. by split.
    + change (is_str (VStr "old_files") "large_files") with false.
      change (is_str (VStr "old_files") "temp_files") with false.
      change (is_str (VStr "old_files") "old_files") with true.
      destruct (fst (_scan_old_files _ _ _ _)). eexists. by split.
    + change (is_str (VStr "duplicates") "large_files") with false.
      change (is_str (VStr "duplicates") "temp_files") with false.
      change (is_str (VStr "duplicates") "old_files") with false.
      change (is_str (VStr "duplicates") "duplicates") with true.
      destruct (_scan_duplicates _). eexists. by split.
  - intros Hunk. rewrite Hbody.
    destruct (is_str_known_false scan_type Hunk) as (-> & -> & -> & ->).
    done.
Qed.

Lemma scan_type_dispatch_witness :
  try_scan (sample_world []) (VStr "/work") (Finite 10) (VStr ".zip")
           (VStr "Large_Files")
  = ErrUnknownScanType (VStr "Large_Files").
Proof.
  destruct (scan_type_dispatch (sample_world []) (VStr "/work") (Finite 10)
              (VStr ".zip") (VStr "Large_Files") "/work" [".zip"])
    as [_ H]; [reflexivity..|].
  apply H. intros s Hs Heq. injection Heq as <-.
  simpl in Hs. intuition discriminate.
Defined.

(** ** Invariants of a report *)

Lemma accounts_nil walk res :
  accounts_for walk res [] -> fst res = [] /\ snd res = 0%N.
Proof.
  intros (_ & _ & Hperm & Hsum). simpl in *. split; [|done].
  apply Permutation_nil_r in Hperm. by destruct (fst res).
Qed.

(** X5.  Every report [use] builds is consistent with itself: [files]
    holds [min(20, files_found)] Findings; the note is one of the two
    texts, the one for all files exactly when [files] holds every
    Finding; and when nothing was found the list is empty and the total
    is 0.0. *)
Theorem report_invariants (W : World) (path : pyval) (m : pyfloat)
    (exts scan_type : pyval) (r : ScanReport) :
  try_scan W path m exts scan_type = Report r ->
  length (r_files r) = Nat.min 20 (r_files_found r)
  /\ (r_note r = "All files shown" \/ r_note r = "Limited to first 20 files")
  /\ (r_note r = "All files shown" <-> length (r_files r) = r_files_found r)
  /\ (r_files_found r = 0%nat ->
      r_files r = [] /\ r_total_size_mb r = 0%N)
  /\ In (r_scan_type r) known_scan_types.
Proof.
  intros Hr.
  apply try_scan_report in Hr
    as (sp & el & res & _ & _ & _ & _ & Hout & st & Hst & ->).
  destruct (classifier_accounts _ _ _ _ _ _ Hout) as [quals Hacc].
  assert (Hlen : length (fst res) = length quals).
  { destruct Hacc as (_ & _ & Hperm & _).
    apply Permutation_length in Hperm. by rewrite !length_map in Hperm. }
  destruct res as [results total].
  cbn [make_report r_files r_files_found r_note r_total_size_mb r_scan_type
       fst snd] in *.
  rewrite length_take.
  split; [lia|]. split.
  { unfold note_of. destruct (20 <? length results)%nat; auto. }
  split.
  { rewrite note_of_all. lia. }
  split.
  { intros H0. rewrite H0 in Hlen. destruct quals; [|done].
    apply accounts_nil in Hacc as [Hr Ht]. simpl in Hr, Ht. by subst. }
  destruct Hout as [[-> _]|[[-> _]|[[-> _]|[-> _]]]];
    injection Hst as <-; simpl; auto.
Qed.

Lemma report_invariants_witness :
  length (r_files sample_report) = Nat.min 20 (r_files_found sample_report).
Proof.
  apply (report_invariants (sample_world many_caches) (VStr "/work")
           (Finite 10) (VStr EmptyString) (VStr "temp_files") sample_report).
  reflexivity.
Defined.

(** ** A tree without regular files *)

Lemma no_file_not_readable walk :
  Forall (fun e => is_file e = false) walk ->
  forall q, (forall e, q e = true -> readable e = true) ->
            List.filter q walk = [].
Proof.
  intros Hall q Hq. induction Hall as [|e walk He Hall IH]; simpl; [done|].
  destruct (q e) eqn:Hqe; [|done].
  apply Hq in Hqe. unfold readable in Hqe. by rewrite He in Hqe.
Qed.

Lemma no_file_sizes_seen walk :
  Forall (fun e => is_file e = false) walk -> sizes_seen walk = [].
Proof.
  induction 1 as [|e walk He Hall IH]; simpl; [done|].
  unfold readable. by rewrite He.
Qed.

(** X6.  A tree that holds no regular file, an empty directory or one
    with sub-directories only, gives the empty result in every mode: no
    Finding and no bytes, hence a report with [files_found = 0],
    [total_size_mb = 0.0], no files and the note for all files; the
    stale-file scan still reads the clock once. *)
Theorem empty_tree_scans (walk : list Entry) :
  Forall (fun e => is_file e = false) walk ->
  (forall m E, _scan_large_files walk m E = ([], 0%N))
  /\ _scan_temp_files walk = ([], 0%N)
  /\ (forall clk days k, _scan_old_files clk walk days k = (([], 0%N), S k))
  /\ _scan_duplicates walk = ([], 0%N)
  /\ (forall W path m exts scan_path ext_list s,
        _resolve_scan_path W path = Returned scan_path ->
        usable_dir W scan_path = true ->
        normalize_extensions exts = Returned ext_list ->
        rglob W scan_path = walk ->
        In s known_scan_types ->
        try_scan W path m exts (VStr s)
        = Report (mkReport s scan_path 0 0%N [] "All files shown")).
Proof.
  intros Hall.
  assert (Htemp : _scan_temp_files walk = ([], 0%N)).
  { rewrite scan_temp_files_eq, (no_file_not_readable walk Hall); [done|].
    intros e. unfold temp_qualifies. rewrite andb_true_iff. tauto. }
  assert (Hdup : _scan_duplicates walk = ([], 0%N)).
  { by rewrite scan_duplicates_eq, (no_file_sizes_seen walk Hall). }
  assert (Hlarge : forall m E, _scan_large_files walk m E = ([], 0%N)).
  { intros m E.
    rewrite scan_large_files_eq, (no_file_not_readable walk Hall); [done|].
    intros e. unfold large_qualifies. rewrite !andb_true_iff. tauto. }
  assert (Hold : forall clk days k,
            _scan_old_files clk walk days k = (([], 0%N), S k)).
  { intros clk days k.
    rewrite scan_old_files_eq. cbn zeta.
    rewrite (no_file_not_readable walk Hall); [simpl; f_equal; lia|].
    intros e. unfold old_qualifies. rewrite andb_true_iff. tauto. }
  repeat (split; [done|]).
  intros W path m exts scan_path ext_list s Hres Hok Hnorm Hwalk Hs.
  rewrite (try_scan_valid W path m exts (VStr s) scan_path ext_list
             Hres Hok Hnorm).
  cbn zeta. rewrite Hwalk, Hlarge, Htemp, Hold, Hdup.
  by destruct Hs as [<-|[<-|[<-|[<-|[]]]]].
Qed.

Lemma empty_tree_scans_witness :
  _scan_duplicates [mkEntry "sub" "sub" false (Some (mkStat 4096 0))]
  = ([], 0%N).
Proof.
  apply empty_tree_scans. repeat constructor.
Defined.

(** ** Characters of stripped and split text *)

Lemma has_char_rev_app c s1 s2 :
  has_char c (String.rev_app s1 s2) = has_char c s1 || has_char c s2.
Proof.
  revert s2. induction s1 as [|a s1 IH]; intros s2; simpl; [done|].
  rewrite IH. simpl. destruct (Ascii.eqb a c), (has_char c s1); done.
Qed.

Lemma has_char_rev c s : has_char c (String.rev s) = has_char c s.
Proof.
  unfold String.rev. rewrite has_char_rev_app. simpl. apply orb_false_r.
Qed.

Lemma has_char_lstrip c p s :
  has_char c s = false -> has_char c (PyStr.lstrip_by p s) = false.
Proof.
  induction s as [|a s IH]; simpl; [done|].
  intros H. apply orb_false_iff in H as [Ha Hs].
  destruct (p a); [by apply IH|]. simpl. by rewrite Ha, Hs.
Qed.

Lemma has_char_strip c p s :
  has_char c s = false -> has_char c (PyStr.strip_by p s) = false.
Proof.
  intros H. unfold PyStr.strip_by, PyStr.rstrip_by.
  rewrite has_char_rev. apply has_char_lstrip.
  rewrite has_char_rev. by apply has_char_lstrip.
Qed.

Lemma split_nonempty sep s : PyStr.split sep s <> [].
Proof.
  destruct s as [|c s]; simpl; [done|].
  destruct (Ascii.eqb c sep); [done|]. by destruct (PyStr.split sep s).
Qed.

Lemma split_no_sep sep s t :
  In t (PyStr.split sep s) -> has_char sep t = false.
Proof.
  revert t. induction s as [|c s IH]; intros t; simpl.
  - by intros [<-|[]].
  - destruct (Ascii.eqb c sep) eqn:Hc.
    + intros [<-|H]; [done|by apply IH].
    + destruct (PyStr.split sep s) as [|t0 ts] eqn:Hs.
      * intros [<-|[]]. simpl. by rewrite Hc.
      * intros [<-|H].
        -- simpl. rewrite Hc. simpl. apply IH. by left.
        -- apply IH. by right.
Qed.

Lemma split_single sep s :
  has_char sep s = false -> PyStr.split sep s = [s].
Proof.
  induction s as [|c s IH]; simpl; [done|].
  intros H. apply orb_false_iff in H as [Hc Hs].
  rewrite Hc, (IH Hs). done.
Qed.

Lemma norm_token_short tok : (length (norm_token tok) <= 1)%nat.
Proof.
  unfold norm_token.
  destruct (String.eqb (PyStr.lower (PyStr.strip tok)) EmptyString);
    simpl; lia.
Qed.

(** ** The input shapes of [use] *)

Section InputShapes.

Variable float_of_str : string -> option pyfloat.
Variable json_loads : string -> option pyval.
Variable re_has_win_drive : string -> bool.
Variable re_escape_path : string -> string.
Variable re_path_value : string -> option string.

Local Abbreviation tool_use :=
  (use float_of_str json_loads re_has_win_drive re_escape_path
       re_path_value).
Local Abbreviation tool_parse_json :=
  (_try_parse_json_with_backslash_fix json_loads re_has_win_drive
                                      re_escape_path).
Local Abbreviation tool_text := (params_of_text re_path_value).

(** X8.  The comma-separated fallback fixes the minimum size at 10.0
    megabytes and takes the second field alone as the extensions: since
    that field holds no comma, the extension filter it normalises to has
    at most one entry. *)
Theorem text_fallback_single_extension (tool_input : string) :
  p_min_size_mb (tool_text tool_input) = Finite 10
  /\ exists token ext_list,
       p_extensions (tool_text tool_input) = VStr token
       /\ has_char "," token = false
       /\ normalize_extensions (VStr token) = Returned ext_list
       /\ (length ext_list <= 1)%nat.
Proof.
  split; [done|]. unfold params_of_text. cbn [p_extensions].
  set (parts := map PyStr.strip (PyStr.split "," tool_input)).
  assert (Hparts : Forall (fun t => has_char "," t = false) parts).
  { unfold parts. rewrite Forall_forall. intros t Ht.
    apply list_elem_of_In, in_map_iff in Ht as (t0 & <- & Ht0).
    apply has_char_strip. by apply (split_no_sep "," tool_input). }
  assert (Htok : forall token, has_char "," token = false ->
    exists ext_list, normalize_extensions (VStr token) = Returned ext_list
                     /\ (length ext_list <= 1)%nat).
  { intros token Hc. exists (norm_spec token).
    split; [apply normalize_extensions_str|].
    unfold norm_spec. rewrite (split_single "," token Hc). simpl.
    rewrite app_nil_r. apply norm_token_short. }
  destruct parts as [|p0 [|p1 rest]].
  - exists EmptyString. destruct (Htok EmptyString eq_refl) as (el & ? & ?).
    by exists el.
  - exists EmptyString. destruct (Htok EmptyString eq_refl) as (el & ? & ?).
    by exists el.
  - exists p1. inversion Hparts as [|? ? _ H1]; subst.
    inversion H1 as [|? ? Hp1 _]; subst.
    destruct (Htok p1 Hp1) as (el & ? & ?). by exists el.
Qed.


End InputShapes.

(** ** Exceptions that reach the caller of [use] *)

Section ParsingExceptions.

Variable float_of_str : string -> option pyfloat.
Variable json_loads_exc : string -> outcome (option pyval).
Variable re_has_win_drive : string -> bool.
Variable re_escape_path : string -> string.
Variable re_path_value : string -> option string.

Local Abbreviation tool_use_exc :=
  (use_exc float_of_str json_loads_exc re_has_win_drive re_escape_path
           re_path_value).
Local Abbreviation tool_parse_json_exc :=
  (_try_parse_json_exc json_loads_exc re_has_win_drive re_escape_path).

Lemma params_of_dict_raises W d e :
  obind (params_of_dict float_of_str d)
    (fun p => Returned (try_scan W (p_path p) (p_min_size_mb p)
                                 (p_extensions p) (p_scan_type p)))
  = Raised e ->
  py_float float_of_str (dict_get d "min_size_mb" (VFloat (Finite 10)))
  = Raised e.
Proof.
  unfold params_of_dict.
  destruct (py_float float_of_str _) as [f|e']; simpl; [done|].
  by intros [= ->].
Qed.

Lemma try_parse_json_exc_agrees (json_loads : string -> option pyval) s :
  (forall t, json_loads_exc t = Returned (json_loads t)) ->
  tool_parse_json_exc s
  = Returned (_try_parse_json_with_backslash_fix
                json_loads re_has_win_drive re_escape_path s).
Proof.
  intros H.
  unfold _try_parse_json_exc, _try_parse_json_with_backslash_fix.
  rewrite H. cbn [obind]. destruct (json_loads s) as [v|]; [done|].
  destruct (_ && re_has_win_drive s); [|done].
  rewrite H. cbn [obind]. by destruct (json_loads (re_escape_path s)).
Qed.

(** X7.  An exception reaches the caller of [use] only from the input
    parsing that precedes the [try] block: from [json.loads] raising
    something other than [JSONDecodeError], on the text or on the
    repaired text, or from [float(...)] applied to the [min_size_mb]
    entry of the parsed JSON object or of the keyword arguments.
    Whatever [json.loads] raises on the positional string does reach the
    caller.  A positional string whose parse ends without an exception
    and is no JSON object, and a call without arguments, return a value.
    Where [json.loads] fails with [JSONDecodeError] only, [use_exc] is
    [use]. *)
Theorem use_raises_only_while_parsing (W : World) (args : list pyval)
    (kwargs : pydict) :
  (forall e, tool_use_exc W args kwargs = Raised e ->
     (exists s rest,
        args = VStr s :: rest
        /\ (json_loads_exc s = Raised e
            \/ (json_loads_exc s = Returned None
                /\ re_has_win_drive s = true
                /\ json_loads_exc (re_escape_path s) = Raised e)
            \/ (exists d status,
                  tool_parse_json_exc s = Returned (Some (VDict d), status)
                  /\ py_float float_of_str
                       (dict_get d "min_size_mb" (VFloat (Finite 10)))
                     = Raised e)))
     \/ ((forall s rest, args <> VStr s :: rest)
         /\ kwargs <> []
         /\ py_float float_of_str
              (dict_get kwargs "min_size_mb" (VFloat (Finite 10)))
            = Raised e))
  /\ (forall s rest e,
        args = VStr s :: rest -> json_loads_exc s = Raised e ->
        tool_use_exc W args kwargs = Raised e)
  /\ (forall s rest parsed,
        args = VStr s :: rest ->
        tool_parse_json_exc s = Returned parsed ->
        (forall d, fst parsed <> Some (VDict d)) ->
        exists r, tool_use_exc W args kwargs = Returned r)
  /\ (exists r, tool_use_exc W [] [] = Returned r)
  /\ (forall json_loads : string -> option pyval,
        (forall s, json_loads_exc s = Returned (json_loads s)) ->
        tool_use_exc W args kwargs
        = use float_of_str json_loads re_has_win_drive re_escape_path
              re_path_value W args kwargs).
Proof.
  split; [|split; [|split; [|split]]].
  - intros e He. unfold use_exc, parse_input_exc in He.
    destruct args as [|[| | | |s| |] rest];
      try (destruct kwargs as [|kv kw]; [done|];
           right; repeat split; [done..|];
           by apply (params_of_dict_raises W)).
    left. exists s, rest. split; [done|].
    unfold _try_parse_json_exc in *.
    destruct (json_loads_exc s) as [[v|]|e'] eqn:H1; cbn [obind fst] in He.
    + right; right.
      destruct v as [| | | | | |d]; try done.
      exists d, status_none. split; [done|].
      by apply (params_of_dict_raises W).
    + destruct (_ && re_has_win_drive s) eqn:Hfix;
        cbn [obind fst] in He; [|done].
      apply andb_true_iff in Hfix as [_ Hw].
      destruct (json_loads_exc (re_escape_path s)) as [[v|]|e'] eqn:H2;
        cbn [obind fst] in He.
      * right; right.
        destruct v as [| | | | | |d]; try done.
        exists d, auto_escaped_backslashes. split; [done|].
        by apply (params_of_dict_raises W).
      * done.
      * right; left. by injection He as ->.
    + left. by injection He as ->.
  - intros s rest e -> He. unfold use_exc, parse_input_exc,
      _try_parse_json_exc. by rewrite He.
  - intros s rest parsed -> Hp Hnd. unfold use_exc, parse_input_exc.
    rewrite Hp. cbn [obind].
    destruct (fst parsed) as [[| | | | | |d]|] eqn:Hf; try (by eexists).
    by destruct (Hnd d).
  - by eexists.
  - intros json_loads H. unfold use_exc, use, parse_input_exc, parse_input.
    destruct args as [|[| | | |s| |] rest]; try done.
    by rewrite (try_parse_json_exc_agrees json_loads s H).
Qed.

End ParsingExceptions.

Lemma use_raises_only_while_parsing_witness :
  use_exc no_float json_too_deep no_match no_sub no_group (sample_world [])
          [VStr "[[[[[[[["] []
  = Raised RecursionError.
Proof.
  destruct (use_raises_only_while_parsing
              no_float json_too_deep no_match no_sub no_group
              (sample_world []) [VStr "[[[[[[[["] [])
    as (_ & H & _).
  by apply (H "[[[[[[[[" []).
Defined.


(** ** Large files: thresholds and what a truncated report shows *)

Lemma filter_sublist_impl {A : Type} (f g : A -> bool) (l : list A) :
  (forall x, f x = true -> g x = true) ->
  sublist (List.filter f l) (List.filter g l).
Proof.
  intros H. induction l as [|x l IH]; simpl; [done|].
  destruct (f x) eqn:Hf.
  - rewrite (H x Hf). by apply sublist_skip.
  - destruct (g x); [by apply sublist_cons|done].
Qed.

Lemma sum_sizes_sublist l1 l2 :
  sublist l1 l2 -> (sum_sizes l1 <= sum_sizes l2)%N.
Proof. induction 1; simpl; lia. Qed.

Lemma large_results_In walk m E fd :
  In fd (fst (_scan_large_files walk m E)) <->
  exists e, In e walk /\ large_qualifies (mul_mib m) E e = true
            /\ fd = large_finding e.
Proof.
  rewrite scan_large_files_eq. simpl.
  rewrite <- list_elem_of_In, sort_desc_perm, list_elem_of_In, in_map_iff.
  split.
  - intros [e [<- He]]. apply filter_In in He as [He Hq]. by exists e.
  - intros [e [He [Hq ->]]]. exists e. split; [done|].
    apply filter_In. by split.
Qed.

Lemma large_scan_narrower walk m1 E1 m2 E2 :
  (forall e, large_qualifies (mul_mib m2) E2 e = true ->
             large_qualifies (mul_mib m1) E1 e = true) ->
  (forall fd, In fd (fst (_scan_large_files walk m2 E2)) ->
              In fd (fst (_scan_large_files walk m1 E1)))
  /\ (length (fst (_scan_large_files walk m2 E2))
      <= length (fst (_scan_large_files walk m1 E1)))%nat
  /\ (snd (_scan_large_files walk m2 E2)
      <= snd (_scan_large_files walk m1 E1))%N.
Proof.
  intros Himp.
  pose proof (filter_sublist_impl _ _ walk Himp) as Hsub.
  split; [|split].
  - intros fd. rewrite !large_results_In.
    intros (e & He & Hq & ->). exists e. auto.
  - rewrite !scan_large_files_eq. simpl.
    rewrite !(Permutation_length (sort_desc_perm _)), !length_map.
    by apply sublist_length.
  - rewrite !scan_large_files_eq. simpl. by apply sum_sizes_sublist.
Qed.

(** X10.  Raising the minimum size, or adding an extension filter, only
    removes files from a large-file scan: every Finding of the stricter
    scan is a Finding of the laxer one, and neither the count nor the
    byte total grows. *)
Theorem large_scan_monotone (walk : list Entry) (m1 m2 : Q)
    (E : list string) :
  (m1 <= m2)%Q ->
  (forall fd, In fd (fst (_scan_large_files walk (Finite m2) E)) ->
              In fd (fst (_scan_large_files walk (Finite m1) E)))
  /\ (length (fst (_scan_large_files walk (Finite m2) E))
      <= length (fst (_scan_large_files walk (Finite m1) E)))%nat
  /\ (snd (_scan_large_files walk (Finite m2) E)
      <= snd (_scan_large_files walk (Finite m1) E))%N
  /\ (forall fd, In fd (fst (_scan_large_files walk (Finite m1) E)) ->
                 In fd (fst (_scan_large_files walk (Finite m1) [])))
  /\ (length (fst (_scan_large_files walk (Finite m1) E))
      <= length (fst (_scan_large_files walk (Finite m1) [])))%nat
  /\ (snd (_scan_large_files walk (Finite m1) E)
      <= snd (_scan_large_files walk (Finite m1) []))%N.
Proof.
  intros Hle.
  assert (H1 : forall e,
    large_qualifies (mul_mib (Finite m2)) E e = true ->
    large_qualifies (mul_mib (Finite m1)) E e = true).
  { intros e. unfold large_qualifies. rewrite !andb_true_iff. simpl.
    rewrite !Qle_bool_iff. intros [[Hr Hge] HE]. repeat split; [done| |done].
    lra. }
  assert (H2 : forall e,
    large_qualifies (mul_mib (Finite m1)) E e = true ->
    large_qualifies (mul_mib (Finite m1)) [] e = true).
  { intros e. unfold large_qualifies. rewrite !andb_true_iff. simpl. tauto. }
  destruct (large_scan_narrower walk (Finite m1) E (Finite m2) E H1)
    as (? & ? & ?).
  destruct (large_scan_narrower walk (Finite m1) [] (Finite m1) E H2)
    as (? & ? & ?).
  by repeat split.
Qed.

Lemma large_scan_monotone_witness :
  (length (fst (_scan_large_files [zip60; txt60; zip10] (Finite 50) []))
   <= length (fst (_scan_large_files [zip60; txt60; zip10] (Finite 5) [])))%nat.
Proof.
  destruct (large_scan_monotone [zip60; txt60; zip10] 5 50 [])
    as (_ & H & _); [by vm_compute|exact H].
Defined.

(** X11.  A minimum size that is NaN or plus infinity, which a JSON
    number can be, reports no file at all; minus infinity, like zero,
    leaves the size test open, so that with no extension filter every
    readable regular file is reported. *)
Theorem large_scan_special_thresholds (walk : list Entry)
    (E : list string) :
  _scan_large_files walk NaN E = ([], 0%N)
  /\ _scan_large_files walk PosInf E = ([], 0%N)
  /\ fst (_scan_large_files walk NegInf [])
     ≡ₚ map large_finding (List.filter readable walk)
  /\ _scan_large_files walk NegInf E = _scan_large_files walk (Finite 0) E.
Proof.
  split; [|split; [|split]].
  - rewrite scan_large_files_eq, filter_none; [done|].
    intros e. unfold large_qualifies. simpl.
    by rewrite andb_false_r.
  - rewrite scan_large_files_eq, filter_none; [done|].
    intros e. unfold large_qualifies. simpl.
    by rewrite andb_false_r.
  - rewrite scan_large_files_eq. simpl. rewrite sort_desc_perm.
    assert (Hext : forall e,
      large_qualifies (mul_mib NegInf) [] e = readable e).
    { intros e. unfold large_qualifies. simpl. by rewrite !andb_true_r. }
    by rewrite (filter_ext _ _ Hext).
  - rewrite !scan_large_files_eq.
    assert (Hext : forall e,
      large_qualifies (mul_mib NegInf) E e
      = large_qualifies (mul_mib (Finite 0)) E e).
    { intros e. unfold large_qualifies. simpl. f_equal. f_equal.
      symmetry. apply Qle_bool_iff. unfold Qle. simpl. lia. }
    by rewrite (filter_ext _ _ Hext).
Qed.

(** X12.  A truncated large-file report shows the largest files: every
    Finding among the first 20 has a [size_mb] at least that of every
    Finding left out. *)
Theorem large_report_shows_largest (walk : list Entry) (m : pyfloat)
    (E : list string) (shown omitted : Finding) :
  In shown (take 20 (fst (_scan_large_files walk m E))) ->
  In omitted (drop 20 (fst (_scan_large_files walk m E))) ->
  (f_size_mb omitted <= f_size_mb shown)%N.
Proof.
  intros Hs Ho.
  assert (Hsorted : StronglySorted desc (fst (_scan_large_files walk m E))).
  { rewrite scan_large_files_eq. apply sort_desc_sorted. }
  apply list_elem_of_In, list_elem_of_lookup in Hs as [i Hi].
  apply list_elem_of_In, list_elem_of_lookup in Ho as [j Hj].
  rewrite lookup_drop in Hj.
  destruct (decide (i < 20)%nat) as [Hlt|Hge].
  - rewrite lookup_take_lt in Hi by done.
    apply (sorted_lookup _ i (20 + j) shown omitted Hsorted); [lia|done..].
  - rewrite lookup_take_ge in Hi by lia. done.
Qed.

Lemma large_report_shows_largest_witness :
  (f_size_mb (mkFinding "build.cache" 57%N "Large file")
   <= f_size_mb (mkFinding "build.cache" 57%N "Large file"))%N.
Proof.
  apply (large_report_shows_largest many_caches (Finite 0) []).
  - vm_compute. auto.
  - vm_compute. auto.
Defined.

(** ** Stale files: the displayed age *)

Lemma old_findings_In_index clk k quals fd :
  In fd (old_findings clk k quals) ->
  exists e i, In e quals /\ fd = old_finding (clk (k + i)%nat) e.
Proof.
  revert k. induction quals as [|e quals IH]; intros k; simpl; [done|].
  intros [<-|H].
  - exists e, 0%nat. rewrite Nat.add_0_r. auto.
  - destruct (IH _ H) as (e' & i & He' & ->). exists e', (S i).
    split; [auto|]. by replace (k + S i)%nat with (S k + i)%nat by lia.
Qed.

Lemma int_of_float_lower_bound (d : Z) (q : Q) :
  (0 <= d)%Z -> (inject_Z d <= q)%Q -> (d <= int_of_float q)%Z.
Proof.
  intros Hd Hq. rewrite int_of_float_trunc.
  assert (H0 : (0 <= q)%Q).
  { apply Qle_trans with (inject_Z d); [|done].
    change 0%Q with (inject_Z 0). by rewrite <- Zle_Qle. }
  apply Qle_bool_iff in H0. rewrite H0.
  rewrite <- (Qfloor_Z d). by apply Qfloor_resp_le.
Qed.

(** X13.  When the clock does not run backwards during the scan and the
    number of days is not negative, the age a stale-file Finding displays
    is never below the cutoff: every reason reads
    "Not modified in N days" with [N >= days]. *)
Theorem old_age_at_least_days (clk : nat -> Q) (walk : list Entry)
    (days : Z) (k : nat) (fd : Finding) :
  (0 <= days)%Z ->
  clock_not_before clk k ->
  In fd (fst (fst (_scan_old_files clk walk days k))) ->
  exists n, f_reason fd = old_reason n /\ (days <= n)%Z.
Proof.
  intros Hd Hclk Hfd. rewrite scan_old_files_eq in Hfd. simpl in Hfd.
  apply old_findings_In_index in Hfd as (e & i & He & ->).
  apply filter_In in He as [_ Hq].
  apply old_qualifies_iff in Hq as (_ & s & Hs & Hlt).
  eexists. split; [reflexivity|].
  apply int_of_float_lower_bound; [done|].
  unfold mtime_of. rewrite Hs.
  pose proof (Hclk (S i)) as Hnow.
  replace (k + S i)%nat with (S k + i)%nat in Hnow by lia.
  replace (days * 24 * 60 * 60)%Z with (days * 86400)%Z in Hlt by lia.
  rewrite inject_Z_mult in Hlt.
  change (inject_Z 86400) with 86400%Q in Hlt.
  apply Qle_shift_div_l; [reflexivity|]. lra.
Qed.

Lemma old_age_at_least_days_witness :
  exists n,
    f_reason (mkFinding "old.doc" 0%N "Not modified in 200 days")
    = old_reason n /\ (180 <= n)%Z.
Proof.
  apply (old_age_at_least_days sample_clock [stale200] 180 0%nat).
  - lia.
  - intros i. unfold sample_clock. rewrite <- Zle_Qle. lia.
  - vm_compute. auto.
Defined.

(** ** Duplicates: the order of the walk *)

Lemma List_filter_perm {A : Type} (f : A -> bool) (l l' : list A) :
  l ≡ₚ l' -> List.filter f l ≡ₚ List.filter f l'.
Proof.
  induction 1 as [|x l l' H IH|x y l|l1 l2 l3 H1 IH1 H2 IH2]; simpl.
  - done.
  - destruct (f x); by rewrite IH.
  - destruct (f x), (f y); try done. apply Permutation_swap.
  - by etrans.
Qed.

Lemma members_perm w w' size :
  w ≡ₚ w' -> members w size ≡ₚ members w' size.
Proof. apply List_filter_perm. Qed.

Lemma sizes_seen_perm w w' : w ≡ₚ w' -> sizes_seen w ≡ₚ sizes_seen w'.
Proof.
  intros H. apply NoDup_Permutation; try apply sizes_seen_NoDup.
  intros s. rewrite ?list_elem_of_In, !sizes_seen_In.
  split; intros (e & He & Hr); exists e; (split; [|done]).
  - by apply (Permutation_in _ H).
  - by apply (Permutation_in _ (Permutation_sym H)).
Qed.

Lemma dup_reported_length w size :
  length (dup_reported w size)
  = if (size =? 0)%N then 0%nat
    else if (length (members w size) <? 2)%nat then 0%nat
    else (length (members w size) - 1)%nat.
Proof.
  unfold dup_reported. destruct (size =? 0)%N; [done|].
  destruct (length (members w size) <? 2)%nat; [done|].
  destruct (members w size); simpl; lia.
Qed.

Lemma dup_group_keys_replicate w size :
  map dup_key (dup_group w size)
  = replicate (length (dup_reported w size))
              (round_mb size, dup_reason (length (members w size))).
Proof.
  unfold dup_group. rewrite map_map.
  induction (dup_reported w size) as [|e l IH]; simpl; [done|].
  by rewrite IH.
Qed.

Lemma dup_group_keys_perm w w' size :
  w ≡ₚ w' -> map dup_key (dup_group w size) = map dup_key (dup_group w' size).
Proof.
  intros H. rewrite !dup_group_keys_replicate, !dup_reported_length.
  by rewrite (Permutation_length (members_perm w w' size H)).
Qed.

Lemma map_flat_map {A B C : Type} (g : B -> C) (f : A -> list B)
    (l : list A) :
  map g (flat_map f l) = flat_map (fun x => map g (f x)) l.
Proof.
  induction l as [|x l IH]; simpl; [done|]. by rewrite map_app, IH.
Qed.

Lemma flat_map_perm {A B : Type} (f : A -> list B) (l l' : list A) :
  l ≡ₚ l' -> flat_map f l ≡ₚ flat_map f l'.
Proof.
  induction 1 as [|x l l' H IH|x y l|l1 l2 l3 H1 IH1 H2 IH2]; simpl.
  - done.
  - by rewrite IH.
  - rewrite !app_assoc. f_equiv. apply Permutation_app_comm.
  - by etrans.
Qed.

Lemma sum_sizes_flat_map_ext {A : Type} (f g : A -> list Entry)
    (l : list A) :
  (forall x, sum_sizes (f x) = sum_sizes (g x)) ->
  sum_sizes (flat_map f l) = sum_sizes (flat_map g l).
Proof.
  intros H. induction l as [|x l IH]; simpl; [done|].
  by rewrite !sum_sizes_app, H, IH.
Qed.

(** X14.  The order in which the tree is walked decides only which file
    of a size group is kept.  Two walks of the same files give the same
    number of duplicate Findings, with the same sizes and reasons, and
    the same byte total. *)
Theorem duplicates_order_independent (walk walk' : list Entry) :
  walk ≡ₚ walk' ->
  map dup_key (fst (_scan_duplicates walk))
  ≡ₚ map dup_key (fst (_scan_duplicates walk'))
  /\ length (fst (_scan_duplicates walk))
     = length (fst (_scan_duplicates walk'))
  /\ snd (_scan_duplicates walk) = snd (_scan_duplicates walk').
Proof.
  intros H.
  assert (Hkeys : map dup_key (fst (_scan_duplicates walk))
                  ≡ₚ map dup_key (fst (_scan_duplicates walk'))).
  { rewrite !scan_duplicates_eq. simpl. rewrite !map_flat_map.
    rewrite (flat_map_perm _ _ _ (sizes_seen_perm walk walk' H)).
    assert (Hext : forall s,
      map dup_key (dup_group walk s) = map dup_key (dup_group walk' s))
      by (intros s; by apply dup_group_keys_perm).
    by rewrite (flat_map_ext _ _ Hext). }
  split; [done|]. split.
  - apply Permutation_length in Hkeys. by rewrite !length_map in Hkeys.
  - rewrite !scan_duplicates_eq. simpl.
    rewrite (sum_sizes_perm _ _
               (flat_map_perm (dup_reported walk) _ _
                  (sizes_seen_perm walk walk' H))).
    apply sum_sizes_flat_map_ext. intros s.
    rewrite !(sum_sizes_same s) by apply dup_reported_sizes.
    rewrite !dup_reported_length.
    by rewrite (Permutation_length (members_perm walk walk' s H)).
Qed.

Lemma duplicates_order_independent_witness :
  length (fst (_scan_duplicates three_same_size))
  = length (fst (_scan_duplicates (rev three_same_size))).
Proof.
  apply duplicates_order_independent. apply Permutation_rev.
Defined.

Lemma NoDup_map_inj_in {A B : Type} (f : A -> B) (l : list A) (x y : A) :
  List.NoDup (map f l) -> In x l -> In y l -> f x = f y -> x = y.
Proof.
  induction l as [|a l IH]; simpl; [done|].
  intros Hnd Hx Hy Hf. inversion Hnd as [|? ? Ha Hnd']; subst.
  destruct Hx as [<-|Hx], Hy as [<-|Hy]; [done| | |by apply IH].
  - exfalso. apply Ha. rewrite Hf. by apply in_map.
  - exfalso. apply Ha. rewrite <- Hf. by apply in_map.
Qed.

Lemma sublist_map {A B : Type} (f : A -> B) (l1 l2 : list A) :
  sublist l1 l2 -> sublist (map f l1) (map f l2).
Proof.
  induction 1; simpl; [constructor|by apply sublist_skip
                      |by apply sublist_cons].
Qed.

Lemma members_sublist_readable walk size :
  sublist (members walk size) (List.filter readable walk).
Proof.
  apply filter_sublist_impl. intros e. rewrite andb_true_iff. tauto.
Qed.

(** X15.  The first file met of each size is kept: when the readable
    files of the walk have distinct paths, the path of the first member
    of a size group is the path of no Finding. *)
Theorem duplicates_keep_first (walk : list Entry) (size : N)
    (first : Entry) (others : list Entry) :
  List.NoDup (map rel_path (List.filter readable walk)) ->
  members walk size = first :: others ->
  ~ In (rel_path first) (map f_path (fst (_scan_duplicates walk))).
Proof.
  intros Hnd Hm Hin. rewrite scan_duplicates_eq in Hin. simpl in Hin.
  apply in_map_iff in Hin as (fd & Hp & Hfd).
  apply in_flat_map in Hfd as (s' & _ & Hfd).
  unfold dup_group in Hfd. apply in_map_iff in Hfd as (e & <- & He).
  simpl in Hp.
  assert (Htail : In e (tail (members walk s'))).
  { unfold dup_reported in He. destruct (s' =? 0)%N; [done|].
    by destruct (length (members walk s') <? 2)%nat. }
  pose proof (tail_In _ _ Htail) as Hmem.
  assert (Hfirst : In first (members walk size)) by (rewrite Hm; by left).
  assert (Heq : e = first).
  { apply (NoDup_map_inj_in rel_path (List.filter readable walk));
      [done| | |done].
    - apply list_elem_of_In. eapply elem_of_sublist;
        [by apply list_elem_of_In
        |apply (members_sublist_readable walk s')].
    - apply list_elem_of_In. eapply elem_of_sublist;
        [by apply list_elem_of_In
        |apply (members_sublist_readable walk size)]. }
  subst e.
  assert (s' = size) as ->.
  { apply members_In in Hmem as (_ & _ & <-).
    by apply members_In in Hfirst as (_ & _ & <-). }
  rewrite Hm in Htail. simpl in Htail.
  assert (Hnd' : List.NoDup (map rel_path (first :: others))).
  { rewrite <- Hm. apply NoDup_ListNoDup.
    eapply sublist_NoDup; [apply NoDup_ListNoDup; exact Hnd|].
    apply sublist_map, members_sublist_readable. }
  simpl in Hnd'. inversion Hnd' as [|? ? Hnot _]; subst.
  apply Hnot. by apply in_map.
Qed.

Lemma duplicates_keep_first_witness :
  ~ In "a.bin" (map f_path (fst (_scan_duplicates three_same_size))).
Proof.
  apply (duplicates_keep_first three_same_size 4096%N
           (mkEntry "a.bin" "a.bin" true (Some (mkStat 4096 0)))
           [mkEntry "sub/b.bin" "b.bin" true (Some (mkStat 4096 7));
            mkEntry "sub/c.dat" "c.dat" true (Some (mkStat 4096 9))]).
  - vm_compute. repeat constructor; simpl; intuition discriminate.
  - reflexivity.
Defined.

(** ** Temporary files: letter case *)

Lemma lower_char_dot c :
  Ascii.eqb (PyStr.lower_char c) "." = Ascii.eqb c ".".
Proof. by destruct c as [[] [] [] [] [] [] [] []]. Qed.

Lemma rfind_from_lower s k :
  PyStr.rfind_from "." (PyStr.lower s) k = PyStr.rfind_from "." s k.
Proof.
  revert k. induction s as [|a s IH]; intros k; simpl; [done|].
  by rewrite IH, lower_char_dot.
Qed.

Lemma length_lower s : String.length (PyStr.lower s) = String.length s.
Proof. induction s as [|a s IH]; simpl; [done|]. by rewrite IH. Qed.

Lemma drop_lower i s :
  PyStr.drop i (PyStr.lower s) = PyStr.lower (PyStr.drop i s).
Proof.
  revert s. induction i as [|i IH]; intros s; [done|].
  destruct s as [|a s]; simpl; [done|]. apply IH.
Qed.

Lemma suffix_of_lower nm :
  PyStr.suffix (PyStr.lower nm) = PyStr.lower (PyStr.suffix nm).
Proof.
  unfold PyStr.suffix, PyStr.rfind.
  rewrite rfind_from_lower, length_lower.
  destruct (PyStr.rfind_from "." nm 0) as [i|]; [|done].
  destruct ((0 <? i)%nat && (i <? String.length nm - 1)%nat); [|done].
  apply drop_lower.
Qed.

Lemma is_temp_by_lower_name e :
  is_temp e
  = PyStr.mem (PyStr.suffix (PyStr.lower (name e))) temp_extensions
    || existsb (fun pattern => PyStr.contains pattern (PyStr.lower (name e)))
               temp_patterns.
Proof. unfold is_temp, suffix_lower. by rewrite suffix_of_lower. Qed.

(** X16.  Whether a file counts as temporary depends on its name only up
    to letter case: two names that agree once lower-cased are classified
    alike, and so are reported alike by the temporary-file scan. *)
Theorem temp_ignores_letter_case (e : Entry) (nm1 nm2 : string) :
  PyStr.lower nm1 = PyStr.lower nm2 ->
  is_temp (rename e nm1) = is_temp (rename e nm2)
  /\ fst (_scan_temp_files [rename e nm1])
     = fst (_scan_temp_files [rename e nm2])
  /\ snd (_scan_temp_files [rename e nm1])
     = snd (_scan_temp_files [rename e nm2]).
Proof.
  intros H.
  assert (Ht : is_temp (rename e nm1) = is_temp (rename e nm2)).
  { rewrite !is_temp_by_lower_name. simpl. by rewrite H. }
  split; [done|].
  unfold _scan_temp_files, temp_step. simpl. rewrite Ht.
  by destruct (is_file e), (is_temp (rename e nm2)), (stat e).
Qed.

Lemma temp_ignores_letter_case_witness :
  is_temp (rename cache_file "REPORT.LOG")
  = is_temp (rename cache_file "report.Log").
Proof.
  apply (temp_ignores_letter_case cache_file "REPORT.LOG" "report.Log").
  reflexivity.
Defined.

(** ** Rounding to hundredths of a megabyte *)

(** X17.  The displayed size never inverts the order of two byte sizes:
    a file that is not smaller in bytes does not show a smaller
    [size_mb]; and a size shows as 0.0 exactly when it is at most 5242
    bytes. *)
Theorem round_mb_monotone (n m : N) :
  ((n <= m)%N -> (round_mb n <= round_mb m)%N)
  /\ (round_mb n = 0%N <-> (n <= 5242)%N).
Proof.
  pose proof (round_mb_nearest n) as [Hn Hn'].
  pose proof (round_mb_nearest m) as [Hm Hm'].
  cbn zeta in *. split.
  - intros Hle.
    destruct (N.eq_dec n m) as [->|Hne]; [lia|]. lia.
  - split; intros H.
    + rewrite H in Hn. simpl in Hn. lia.
    + lia.
Qed.

Lemma round_mb_monotone_witness : (round_mb 5242 <= round_mb 5243)%N.
Proof.
  destruct (round_mb_monotone 5242 5243) as [H _]. apply H. lia.
Defined.

(** ** The size dict *)

Lemma groups_get_None d size :
  groups_get d size = None -> ~ In size (map fst d).
Proof.
  induction d as [|[k files] d IH]; simpl; [tauto|].
  destruct (k =? size)%N eqn:Hk; [done|].
  apply N.eqb_neq in Hk. intros Hg [Heq|Hin]; [done|by apply IH].
Qed.

(** X18.  [setdefault(size, []).append(path)] on the size dict adds the
    path at the end of the group of its size, creating that group at the
    end of the dict when the size is new; every other group is left as
    it was, and distinct keys stay distinct. *)
Theorem setdefault_append_lookup (d : SizeGroups) (size : N)
    (file_path : Entry) :
  groups_get (setdefault_append size file_path d) size
  = Some (default [] (groups_get d size) ++ [file_path])
  /\ (forall k, k <> size ->
        groups_get (setdefault_append size file_path d) k = groups_get d k)
  /\ map fst (setdefault_append size file_path d)
     = map fst d ++ match groups_get d size with
                    | Some _ => []
                    | None => [size]
                    end
  /\ (List.NoDup (map fst d) ->
      List.NoDup (map fst (setdefault_append size file_path d))).
Proof.
  assert (Hkeys : map fst (setdefault_append size file_path d)
                  = map fst d ++ match groups_get d size with
                                 | Some _ => []
                                 | None => [size]
                                 end).
  { induction d as [|[k files] d IH]; simpl; [done|].
    destruct (k =? size)%N; simpl; [by rewrite app_nil_r|by rewrite IH]. }
  split; [|split; [|split; [done|]]].
  - clear Hkeys. induction d as [|[k files] d IH]; simpl.
    + by rewrite N.eqb_refl.
    + destruct (k =? size)%N eqn:Hk; simpl; by rewrite Hk.
  - intros k Hne. clear Hkeys.
    induction d as [|[k' files] d IH]; simpl.
    + by rewrite (proj2 (N.eqb_neq _ _) (not_eq_sym Hne)).
    + destruct (k' =? size)%N eqn:Hk; simpl.
      * apply N.eqb_eq in Hk. subst k'.
        by rewrite (proj2 (N.eqb_neq _ _) (not_eq_sym Hne)).
      * by rewrite IH.
  - intros Hnd. rewrite Hkeys.
    destruct (groups_get d size) eqn:Hg; [by rewrite app_nil_r|].
    apply groups_get_None in Hg.
    apply NoDup_ListNoDup, NoDup_app. repeat split.
    + by apply NoDup_ListNoDup.
    + intros x Hx Hs. apply list_elem_of_singleton in Hs. subst x.
      by apply list_elem_of_In in Hx.
    + apply NoDup_singleton.
Qed.

Lemma setdefault_append_lookup_witness :
  List.NoDup (map fst (setdefault_append 7%N zip60 [(3%N, [txt60])])).
Proof.
  apply setdefault_append_lookup. repeat constructor. by intros [].
Defined.

(** ** Stripping, and normalising what is already normal *)

Lemma append_cons c s t : String c s +:+ t = String c (s +:+ t).
Proof. reflexivity. Qed.

Lemma append_assoc s t u : (s +:+ t) +:+ u = s +:+ (t +:+ u).
Proof.
  induction s as [|c s IH]; [done|]. by rewrite !append_cons, IH.
Qed.

Lemma rev_app_append s acc :
  String.rev_app s acc = String.rev_app s EmptyString +:+ acc.
Proof.
  revert acc. induction s as [|c s IH]; intros acc; simpl; [done|].
  rewrite (IH (String c acc)), (IH (String c EmptyString)).
  by rewrite append_assoc.
Qed.

Lemma rev_cons c s :
  String.rev (String c s) = String.rev s +:+ String c EmptyString.
Proof. unfold String.rev. simpl. apply rev_app_append. Qed.

Lemma rev_app_of_append u v acc :
  String.rev_app (u +:+ v) acc = String.rev_app v (String.rev_app u acc).
Proof.
  revert acc. induction u as [|c u IH]; intros acc; [done|].
  rewrite append_cons. simpl. apply IH.
Qed.

Lemma rev_snoc u c :
  String.rev (u +:+ String c EmptyString) = String c (String.rev u).
Proof. unfold String.rev. by rewrite rev_app_of_append. Qed.

Lemma rev_empty u : String.rev u = EmptyString -> u = EmptyString.
Proof.
  destruct u as [|c u]; [done|]. rewrite rev_cons.
  by destruct (String.rev u).
Qed.

Lemma lstrip_append p a b :
  PyStr.lstrip_by p (a +:+ b)
  = if String.eqb (PyStr.lstrip_by p a) EmptyString then PyStr.lstrip_by p b
    else PyStr.lstrip_by p a +:+ b.
Proof.
  induction a as [|c a IH]; [done|].
  rewrite append_cons. simpl. destruct (p c); [done|].
  by rewrite append_cons.
Qed.

Lemma rstrip_by_rec p s : PyStr.rstrip_by p s = rstrip_rec p s.
Proof.
  induction s as [|c s IH]; [done|].
  unfold PyStr.rstrip_by in *. rewrite rev_cons, lstrip_append. simpl.
  destruct (String.eqb (PyStr.lstrip_by p (String.rev s)) EmptyString) eqn:Hu.
  - apply String.eqb_eq in Hu. rewrite Hu in IH. rewrite <- IH. simpl.
    by destruct (p c).
  - rewrite rev_snoc, IH.
    assert (String.eqb (rstrip_rec p s) EmptyString = false) as ->.
    { apply String.eqb_neq. rewrite <- IH. intros H%rev_empty.
      apply String.eqb_neq in Hu. done. }
    by rewrite andb_false_r.
Qed.

Lemma strip_by_rec p s :
  PyStr.strip_by p s = rstrip_rec p (PyStr.lstrip_by p s).
Proof. unfold PyStr.strip_by. apply rstrip_by_rec. Qed.

Lemma lstrip_starts_clean p s : starts_clean p (PyStr.lstrip_by p s) = true.
Proof.
  induction s as [|c s IH]; simpl; [done|].
  destruct (p c) eqn:Hc; [done|]. simpl. by rewrite Hc.
Qed.

Lemma lstrip_of_clean p s :
  starts_clean p s = true -> PyStr.lstrip_by p s = s.
Proof.
  destruct s as [|c s]; simpl; [done|]. by destruct (p c).
Qed.

Lemma rstrip_keeps_clean p s :
  starts_clean p s = true -> starts_clean p (rstrip_rec p s) = true.
Proof.
  destruct s as [|c s]; simpl; [done|].
  destruct (p c) eqn:Hc; [done|]. simpl. by rewrite Hc.
Qed.

Lemma rstrip_rec_idem p s : rstrip_rec p (rstrip_rec p s) = rstrip_rec p s.
Proof.
  induction s as [|c s IH]; simpl; [done|].
  destruct (p c && String.eqb (rstrip_rec p s) EmptyString) eqn:H; [done|].
  simpl. by rewrite IH, H.
Qed.

Lemma strip_by_idem p s :
  PyStr.strip_by p (PyStr.strip_by p s) = PyStr.strip_by p s.
Proof.
  rewrite !strip_by_rec.
  rewrite (lstrip_of_clean p (rstrip_rec p (PyStr.lstrip_by p s))).
  - apply rstrip_rec_idem.
  - apply rstrip_keeps_clean, lstrip_starts_clean.
Qed.

Lemma isspace_lower_char c :
  PyStr.isspace (PyStr.lower_char c) = PyStr.isspace c.
Proof. by destruct c as [[] [] [] [] [] [] [] []]. Qed.

Lemma lower_empty s :
  String.eqb (PyStr.lower s) EmptyString = String.eqb s EmptyString.
Proof. by destruct s. Qed.

Lemma lstrip_lower s :
  PyStr.lstrip_by PyStr.isspace (PyStr.lower s)
  = PyStr.lower (PyStr.lstrip_by PyStr.isspace s).
Proof.
  induction s as [|c s IH]; simpl; [done|].
  rewrite isspace_lower_char. by destruct (PyStr.isspace c).
Qed.

Lemma rstrip_lower s :
  rstrip_rec PyStr.isspace (PyStr.lower s)
  = PyStr.lower (rstrip_rec PyStr.isspace s).
Proof.
  induction s as [|c s IH]; simpl; [done|].
  rewrite IH, isspace_lower_char, lower_empty.
  by destruct (PyStr.isspace c && _).
Qed.

Lemma strip_lower s : PyStr.strip (PyStr.lower s) = PyStr.lower (PyStr.strip s).
Proof.
  unfold PyStr.strip. by rewrite !strip_by_rec, lstrip_lower, rstrip_lower.
Qed.

Lemma lower_char_comma c :
  Ascii.eqb (PyStr.lower_char c) "," = Ascii.eqb c ",".
Proof. by destruct c as [[] [] [] [] [] [] [] []]. Qed.

Lemma has_comma_lower s :
  has_char "," (PyStr.lower s) = has_char "," s.
Proof.
  induction s as [|c s IH]; simpl; [done|]. by rewrite lower_char_comma, IH.
Qed.

(** A normalised extension is a fixed point of the normalisation. *)
Lemma norm_token_fixed tok x :
  In x (norm_token tok) -> norm_token x = [x].
Proof.
  intros Hx. pose proof (norm_token_shape tok x Hx) as (Hne & Hdot & Hlow).
  assert (Hstrip : PyStr.strip x = x).
  { unfold norm_token in Hx.
    set (e := PyStr.lower (PyStr.strip tok)) in *.
    assert (He : PyStr.strip e = e).
    { unfold e. rewrite strip_lower. unfold PyStr.strip.
      by rewrite strip_by_idem. }
    destruct (String.eqb e EmptyString); [done|].
    destruct (PyStr.startswith "." e); destruct Hx as [<-|[]]; [done|].
    change ("." +:+ e) with (String "." e).
    unfold PyStr.strip in *. rewrite strip_by_rec in *.
    change (PyStr.lstrip_by PyStr.isspace (String "." e)) with (String "." e).
    assert (Hr : rstrip_rec PyStr.isspace e = e).
    { rewrite <- He at 1. rewrite rstrip_rec_idem. exact He. }
    simpl. by rewrite Hr. }
  unfold norm_token. rewrite Hstrip, Hlow, Hdot.
  by rewrite (proj2 (String.eqb_neq _ _) Hne).
Qed.

Lemma norm_token_no_comma tok x :
  has_char "," tok = false -> In x (norm_token tok) -> has_char "," x = false.
Proof.
  intros Hc. unfold norm_token.
  assert (He : has_char "," (PyStr.lower (PyStr.strip tok)) = false).
  { rewrite has_comma_lower. by apply has_char_strip. }
  destruct (String.eqb _ EmptyString); [done|].
  destruct (PyStr.startswith "." _); intros [<-|[]]; [done|].
  change ("." +:+ PyStr.lower (PyStr.strip tok))
    with (String "." (PyStr.lower (PyStr.strip tok))).
  simpl. exact He.
Qed.

Lemma split_append_sep sep x rest :
  has_char sep x = false ->
  PyStr.split sep (x +:+ String sep rest) = x :: PyStr.split sep rest.
Proof.
  induction x as [|c x IH]; intros H.
  - simpl. change (EmptyString +:+ String sep rest) with (String sep rest).
    simpl. by rewrite Ascii.eqb_refl.
  - simpl in H. apply orb_false_iff in H as [Hc Hx].
    rewrite append_cons. simpl. rewrite Hc, (IH Hx). done.
Qed.

Lemma split_concat l :
  l <> [] -> Forall (fun x => has_char "," x = false) l ->
  PyStr.split "," (String.concat "," l) = l.
Proof.
  intros Hne Hall. induction Hall as [|x l Hx Hall IH]; [done|].
  destruct l as [|y l].
  - simpl. by apply split_single.
  - change (String.concat "," (x :: y :: l))
      with (x +:+ String "," (String.concat "," (y :: l))).
    rewrite split_append_sep by done. by rewrite IH.
Qed.

(** X19.  Normalising is idempotent: the extension filter obtained from
    any string, written back as a comma-separated string, normalises to
    itself. *)
Theorem normalization_idempotent (s : string) :
  normalize_extensions (VStr (String.concat "," (norm_spec s)))
  = Returned (norm_spec s).
Proof.
  rewrite normalize_extensions_str. f_equal.
  assert (Hfix : Forall (fun x => norm_token x = [x]) (norm_spec s)).
  { rewrite Forall_forall. intros x Hx.
    apply list_elem_of_In, in_flat_map in Hx as (tok & _ & Hx).
    by apply (norm_token_fixed tok). }
  assert (Hcomma : Forall (fun x => has_char "," x = false) (norm_spec s)).
  { rewrite Forall_forall. intros x Hx.
    apply list_elem_of_In, in_flat_map in Hx as (tok & Htok & Hx).
    apply (norm_token_no_comma tok); [|done].
    by apply (split_no_sep "," s). }
  destruct (norm_spec s) as [|x l] eqn:Hl; [done|].
  unfold norm_spec at 1. rewrite split_concat by done.
  clear Hcomma Hl. induction Hfix as [|y l' Hy Hfix IH]; simpl; [done|].
  by rewrite Hy, IH.
Qed.


(** ** The displayed total and the displayed sizes *)

Lemma sum_mb_perm_keys l1 l2 :
  map finding_key l1 ≡ₚ map entry_key l2 ->
  sum_mb l1 = fold_right (fun e acc => (round_mb (raw_size e) + acc)%N) 0%N l2.
Proof.
  intros H.
  assert (Hs : forall l : list (string * centi), forall l',
    l ≡ₚ l' ->
    fold_right (fun kv acc => (snd kv + acc)%N) 0%N l
    = fold_right (fun kv acc => (snd kv + acc)%N) 0%N l').
  { intros l l' Hp.
    induction Hp as [|x k k' Hp IH|x y k|k1 k2 k3 H1 IH1 H2 IH2]; simpl;
      [done|by rewrite IH|lia|congruence]. }
  apply Hs in H. clear Hs. unfold sum_mb.
  assert (H1 : fold_right (fun kv acc => (snd kv + acc)%N) 0%N
                          (map finding_key l1)
               = fold_right (fun fd acc => (f_size_mb fd + acc)%N) 0%N l1).
  { clear. induction l1 as [|fd l1 IH]; simpl; [done|]. by rewrite IH. }
  assert (H2 : fold_right (fun kv acc => (snd kv + acc)%N) 0%N
                          (map entry_key l2)
               = fold_right (fun e acc => (round_mb (raw_size e) + acc)%N)
                            0%N l2).
  { clear. induction l2 as [|e l2 IH]; simpl; [done|]. by rewrite IH. }
  congruence.
Qed.

Lemma rounded_sum_close (quals : list Entry) :
  let H := Z.of_N (fold_right (fun e acc => (round_mb (raw_size e) + acc)%N)
                              0%N quals) in
  (2 * Z.abs (100 * Z.of_N (sum_sizes quals) - H * 1048576)
   <= Z.of_nat (length quals) * 1048576)%Z.
Proof.
  induction quals as [|e quals IH]; cbn zeta in *; simpl; [lia|].
  pose proof (round_mb_nearest (raw_size e)) as [He _]. cbn zeta in He.
  lia.
Qed.

Lemma accounts_total_close walk res quals :
  accounts_for walk res quals ->
  (2 * Z.abs (Z.of_N (round_mb (snd res)) - Z.of_N (sum_mb (fst res)))
   <= Z.of_nat (length (fst res)) + 1)%Z.
Proof.
  intros (_ & _ & Hperm & Hsum).
  rewrite (sum_mb_perm_keys _ _ Hperm), Hsum.
  assert (Hlen : length (fst res) = length quals).
  { apply Permutation_length in Hperm. by rewrite !length_map in Hperm. }
  rewrite Hlen.
  pose proof (rounded_sum_close quals) as Hq. cbn zeta in Hq.
  pose proof (round_mb_nearest (sum_sizes quals)) as [Ht _]. cbn zeta in Ht.
  lia.
Qed.

(** X20.  In every mode the rounded total stays close to the sum of the
    rounded sizes of all Findings: counted in hundredths of a megabyte,
    twice their difference is at most the number of Findings plus one. *)
Theorem total_close_to_sum_of_sizes (walk : list Entry) :
  let close (res : list Finding * N) :=
    (2 * Z.abs (Z.of_N (round_mb (snd res)) - Z.of_N (sum_mb (fst res)))
     <= Z.of_nat (length (fst res)) + 1)%Z in
  (forall m E, close (_scan_large_files walk m E))
  /\ close (_scan_temp_files walk)
  /\ (forall clk days k, close (fst (_scan_old_files clk walk days k)))
  /\ close (_scan_duplicates walk).
Proof.
  cbn zeta. repeat split; intros.
  - eapply accounts_total_close, accounts_large.
  - eapply accounts_total_close, accounts_temp.
  - eapply accounts_total_close, accounts_old.
  - eapply accounts_total_close, accounts_dup.
Qed.

(** ** No file is reported twice *)

Lemma submseteq_map {A B : Type} (f : A -> B) (l k : list A) :
  l ⊆+ k -> map f l ⊆+ map f k.
Proof.
  induction 1; simpl.
  - constructor.
  - by apply submseteq_skip.
  - apply submseteq_swap.
  - by apply submseteq_cons.
  - by etrans.
Qed.

Lemma submseteq_ListNoDup {A : Type} (l k : list A) :
  l ⊆+ k -> List.NoDup k -> List.NoDup l.
Proof.
  intros Hsub Hnd. apply submseteq_Permutation in Hsub as [k' Hk'].
  apply NoDup_ListNoDup in Hnd. rewrite Hk' in Hnd.
  apply NoDup_app in Hnd as [Hl _]. by apply NoDup_ListNoDup.
Qed.

Lemma accounts_paths_NoDup walk res quals :
  accounts_for walk res quals ->
  List.NoDup (map rel_path walk) ->
  List.NoDup (map f_path (fst res)).
Proof.
  intros (Hsub & _ & Hperm & _) Hnd.
  assert (Hp : map f_path (fst res) ≡ₚ map rel_path quals).
  { assert (map fst (map finding_key (fst res))
            ≡ₚ map fst (map entry_key quals)) as H by (by rewrite Hperm).
    by rewrite !map_map in H. }
  apply NoDup_ListNoDup. rewrite Hp. apply NoDup_ListNoDup.
  apply (submseteq_ListNoDup _ (map rel_path walk)); [|done].
  by apply submseteq_map.
Qed.

(** X21.  When the paths of the walk are distinct, as the paths of a
    directory tree are, no scan reports a path twice. *)
Theorem no_path_reported_twice (walk : list Entry) :
  List.NoDup (map rel_path walk) ->
  (forall m E, List.NoDup (map f_path (fst (_scan_large_files walk m E))))
  /\ List.NoDup (map f_path (fst (_scan_temp_files walk)))
  /\ (forall clk days k,
        List.NoDup (map f_path (fst (fst (_scan_old_files clk walk days k)))))
  /\ List.NoDup (map f_path (fst (_scan_duplicates walk))).
Proof.
  intros Hnd. repeat split; intros.
  - eapply accounts_paths_NoDup; [apply accounts_large|done].
  - eapply accounts_paths_NoDup; [apply accounts_temp|done].
  - eapply accounts_paths_NoDup; [apply accounts_old|done].
  - eapply accounts_paths_NoDup; [apply accounts_dup|done].
Qed.

Lemma no_path_reported_twice_witness :
  List.NoDup (map f_path (fst (_scan_duplicates three_same_size))).
Proof.
  apply no_path_reported_twice.
  vm_compute. repeat constructor; simpl; intuition discriminate.
Defined.
